(** * Template filters of [best_templatetags.templatetags.best_filters]

    A shallow embedding of the filter functions of [best_filters.py] and the
    properties of them that the specification states.

    Python values are embedded as follows.
    - [str] is a list of characters; a character is a code point below 256.
    - [int] is [Z]; a finite [float] is the rational number it stands for.
    - An operation that can raise returns a [result]: [Ok v] or [Raise e].
    - Python's [None] result of a function is [None] of an [option].
    - The libraries the module calls ([re], [str] methods, [datetime], the
      tree API of [bs4]) are modelled by the definitions of the sections
      [Str], [Re], [Datetime] and [Soup]; the translation catalogue
      ([ugettext]), Django's [linenumbers] and the HTML parser itself are
      section variables. *)

From Stdlib Require Import ZArith QArith Ascii String DecimalString.
From stdpp Require Import gmap strings list sorting.

Set Warnings "-register-all".
Open Scope Z_scope.

(** ** Python strings *)

Abbreviation str := (list ascii).

Definition py (s : string) : str := list_ascii_of_string s.

(** The double quote, which the string literals of this file never contain. *)
Definition dquote : ascii := "034"%char.
Definition newline : ascii := "010"%char.

(** ** Exceptions and results *)

Inductive exn : Type :=
| AttributeError
| IndexError
| KeyError
| MemoryError
| OverflowError
| TypeError
| ValueError
| ZeroDivisionError.

Inductive result (A : Type) : Type :=
| Ok (a : A)
| Raise (e : exn).
Arguments Ok {A} a.
Arguments Raise {A} e.

#[global] Instance result_ret : MRet result := fun A a => Ok a.
#[global] Instance result_bind : MBind result := fun A B f m =>
  match m with
  | Ok a => f a
  | Raise e => Raise e
  end.

(** [l[i]] on a Python sequence, for a non-negative index. *)
Definition getitem {A : Type} (l : list A) (i : nat) : result A :=
  match l !! i with
  | Some a => Ok a
  | None => Raise IndexError
  end.

(** ** [divide] on integers *)

Section Float.





End Float.


(** ** Dates: [age] *)

Record date : Type := Date { year : Z; month : Z; day : Z }.

(** [a < b] on pairs of integers: the first position where the pairs differ
    decides. *)
Definition tuple_lt (a b : Z * Z) : bool :=
  if a.1 =? b.1 then a.2 <? b.2 else a.1 <? b.1.

(** [int(b)] for a Boolean. *)
Definition int_of_bool (b : bool) : Z := if b then 1 else 0.

Section Age.
(** [datetime.date.today()] *)
Variable today : date.

Definition age (bday : date) (d : option date) : Z :=
  let d := match d with None => today | Some d => d end in
  (year d - year bday)
  - int_of_bool (tuple_lt (month d, day d) (month bday, day bday)).
End Age.

(** The order the specification names: [(m1, d1)] precedes [(m2, d2)]. *)
Definition precedes (a b : Z * Z) : Prop :=
  a.1 < b.1 ∨ (a.1 = b.1 ∧ a.2 < b.2).

#[global] Instance precedes_dec a b : Decision (precedes a b).
Proof. unfold precedes. apply _. Defined.

(** ** The [str] methods the filters call *)

Section Str.

(** [c.isspace()] for a code point below 256; it is also the class [\s] of
    a [str] pattern. *)
Definition isspace (c : ascii) : bool :=
  let n := nat_of_ascii c in
  ((9 <=? n) && (n <=? 13) || (28 <=? n) && (n <=? 32)
   || (n =? 133) || (n =? 160))%nat.

(** [s.split(sep)] for a separator of one character: every occurrence of
    the separator ends a part, so the result has one part more than [s] has
    separators. *)
Fixpoint split_char (sep : ascii) (s : str) : list str :=
  match s with
  | [] => [[]]
  | c :: s' =>
      if decide (c = sep) then [] :: split_char sep s'
      else match split_char sep s' with
           | w :: ws => (c :: w) :: ws
           | [] => [[c]]
           end
  end.

(** [s.split()]: the maximal runs of characters that are not white space.
    [split_go s] is the run that starts [s] (empty when [s] starts with
    white space) and the runs after it. *)
Fixpoint split_go (s : str) : str * list str :=
  match s with
  | [] => ([], [])
  | c :: s' =>
      let '(w, ws) := split_go s' in
      if isspace c then ([], match w with [] => ws | _ => w :: ws end)
      else (c :: w, ws)
  end.

Definition split (s : str) : list str :=
  let '(w, ws) := split_go s in
  match w with [] => ws | _ => w :: ws end.

(** [s.replace(old, new)]: the occurrences of [old] are found from left to
    right and do not overlap; an empty [old] occurs before every character
    and at the end. [skip] counts the characters of an occurrence that are
    still to be passed over. *)
Fixpoint replace_from (old new : str) (skip : nat) (s : str) : str :=
  match skip, s with
  | S k, _ :: s' => replace_from old new k s'
  | S _, [] => []
  | O, [] => match old with [] => new | _ => [] end
  | O, c :: s' =>
      if bool_decide (old `prefix_of` s) then
        match old with
        | [] => new ++ c :: replace_from old new 0 s'
        | _ :: old' => new ++ replace_from old new (length old') s'
        end
      else c :: replace_from old new 0 s'
  end.

Definition str_replace (s old new : str) : str := replace_from old new 0 s.

(** [str(n)] and ["%d" % n] for an integer. *)
Definition decimal (n : Z) : str := py (NilZero.string_of_int (Z.to_int n)).

(** [fmt % n] for a format with one conversion, [%d]: the conversion is
    replaced by the decimal digits of [n]; without a conversion Python
    raises [TypeError]. *)
Fixpoint percent_d (fmt : str) (n : Z) : result str :=
  match fmt with
  | [] => Raise TypeError
  | c :: rest =>
      match rest with
      | d :: rest' =>
          if bool_decide (c = "%"%char ∧ d = "d"%char)
          then Ok (decimal n ++ rest')
          else r ← percent_d rest n; Ok (c :: r)
      | [] => Raise TypeError
      end
  end.

End Str.

(** ** [replace] *)

Definition replace (s arg : str) : result str :=
  sep ← getitem arg 0;
  let params := split_char sep arg in
  pat ← getitem params 1;
  rep ← getitem params 2;
  Ok (str_replace s pat rep).

(** ** [datetime] *)

Section Datetime.

(** A [datetime] is its day number ([toordinal()]), the second of that day
    and the microsecond of that second. *)
Record datetime : Type := Datetime {
  toordinal : Z;
  second_of_day : Z;
  microsecond : Z
}.

(** A [timedelta] is normalised: [0 <= seconds < 86400] and
    [0 <= microseconds < 1000000], and [days] carries the sign. *)
Record timedelta : Type := Timedelta {
  days : Z;
  seconds : Z;
  microseconds : Z
}.

Definition datetime_sub (t2 t1 : datetime) : timedelta :=
  let us :=
    ((toordinal t2 - toordinal t1) * 86400
     + (second_of_day t2 - second_of_day t1)) * 1000000
    + (microsecond t2 - microsecond t1) in
  {| days := us / 86400000000;
     seconds := (us mod 86400000000) / 1000000;
     microseconds := us mod 1000000 |}.

End Datetime.

(** ** [timesince_simple] *)

Section Timesince.
(** [ugettext], the translation of a message. *)
Variable ugettext : str → str.
(** [datetime.datetime.now()] *)
Variable now : datetime.

(** [int(days / k)] is the quotient truncated towards zero: the float
    [days / k] is an integer exactly when [k] divides [days], and is
    otherwise farther from an integer than its rounding error.
    [int(days / 365.25)] is [int(4 * days / 1461)]. *)
Definition timesince_simple (t1 : datetime) (t2 : option datetime)
  : result (option str) :=
  let t2 := match t2 with None => now | Some t => t end in
  let d := datetime_sub t2 t1 in
  let days := days d in
  if negb (days =? 0) then
    if days =? 0 then Ok (Some (ugettext (py "today")))
    else if days <? 7 then
      s ← percent_d (ugettext (py "%d days")) days; Ok (Some s)
    else if days <? 14 then Ok (Some (ugettext (py "one week")))
    else if days <? 30 then
      s ← percent_d (ugettext (py "%d weeks")) (days ÷ 7); Ok (Some s)
    else if days <? 60 then Ok (Some (ugettext (py "one month")))
    else if days <? 365 then
      s ← percent_d (ugettext (py "%d months")) (days ÷ 30); Ok (Some s)
    else if days <? 730 then Ok (Some (ugettext (py "one year")))
    else
      s ← percent_d (ugettext (py "%d years")) ((4 * days) ÷ 1461);
      Ok (Some s)
  else Ok None.

End Timesince.

(** ** Regular expressions: the part of [re] the filters use *)

Section Re.

(** A pattern is kept as its syntax tree. The trees are those of the
    patterns written with literal characters, [.], character classes,
    parentheses, [|] and greedy repetitions; a pattern text with flags in it
    ([(?x)], [(?i)], ...), a comment, an anchor, a look-around, a
    back-reference or a lazy repetition has no tree here. [Alt] outside a
    [Group] is an alternation written without parentheses in the pattern
    text; the text of every other tree stands as one piece. [Any] is [.],
    which matches every character except a newline (no [DOTALL] flag is
    passed anywhere); [Cls f] is a character class; [Rep a lo hi] is
    [a{lo,hi}], so [a?] is [Rep a 0 1]. *)
Inductive regex : Type :=
| Eps
| Chr (c : ascii)
| Any
| Cls (f : ascii → bool)
| Seq (a b : regex)
| Alt (a b : regex)
| Group (a : regex)
| Star (a : regex)
| Rep (a : regex) (lo hi : nat).

(** The matcher backtracks. [cands r s] lists, in the order the matcher
    tries them, what is left of [s] after each way [r] matches a prefix of
    [s]; the head is the match [re] reports. *)

(** [a*]: one more iteration is tried before stopping; an iteration that
    consumes nothing ends the loop. *)
Fixpoint star_cands (step : str → list str) (fuel : nat) (s : str)
  : list str :=
  match fuel with
  | O => [s]
  | S n =>
      (step s ≫= λ s',
         if (length s' <? length s)%nat then star_cands step n s' else [])
      ++ [s]
  end.

(** [a{lo,hi}] *)
Fixpoint rep_cands (step : str → list str) (lo hi : nat) (s : str)
  : list str :=
  match hi with
  | O => match lo with O => [s] | S _ => [] end
  | S h =>
      (step s ≫= rep_cands step (pred lo) h)
      ++ match lo with O => [s] | S _ => [] end
  end.

Fixpoint cands (r : regex) (s : str) : list str :=
  match r with
  | Eps => [s]
  | Chr c =>
      match s with
      | x :: s' => if decide (x = c) then [s'] else []
      | [] => []
      end
  | Any =>
      match s with
      | x :: s' => if decide (x = newline) then [] else [s']
      | [] => []
      end
  | Cls f =>
      match s with
      | x :: s' => if f x then [s'] else []
      | [] => []
      end
  | Seq a b => cands a s ≫= cands b
  | Alt a b => cands a s ++ cands b s
  | Group a => cands a s
  | Star a => star_cands (cands a) (length s) s
  | Rep a lo hi => rep_cands (cands a) lo hi s
  end.

(** [r.match(s)]: what follows the match, when [r] matches at the start of
    [s]. *)
Definition re_match (r : regex) (s : str) : option str := head (cands r s).

(** [r.match(s)] when the match must not be empty: the matcher goes on to
    its next way of matching until one consumes a character. *)
Definition re_match_advance (r : regex) (s : str) : option str :=
  head (filter (λ rest, (length rest < length s)%nat) (cands r s)).

(** [r.sub(repl, s)] for a replacement text without group references
    (Python 3.7 and later): the matches are found from left to right and do
    not overlap; after an empty match, a match that is not empty is looked
    for at the same place, and the next character is copied when there is
    none. [skip] counts the characters of a match that are still to be
    passed over. *)
Fixpoint sub_from (r : regex) (repl : str) (skip : nat) (s : str) : str :=
  match skip with
  | S k =>
      match s with
      | [] => []
      | _ :: s' => sub_from r repl k s'
      end
  | O =>
      match re_match r s with
      | Some rest =>
          match s with
          | [] => repl
          | c :: s' =>
              match (length s - length rest)%nat with
              | O =>
                  repl ++
                  match re_match_advance r s with
                  | Some rest' =>
                      repl ++ sub_from r repl (length s' - length rest') s'
                  | None => c :: sub_from r repl 0 s'
                  end
              | S k => repl ++ sub_from r repl k s'
              end
          end
      | None =>
          match s with
          | [] => []
          | c :: s' => c :: sub_from r repl 0 s'
          end
      end
  end.

Definition re_sub (r : regex) (repl s : str) : str := sub_from r repl 0 s.

(** [r.search(s)] as a truth value. *)
Fixpoint re_search (r : regex) (s : str) : bool :=
  match re_match r s with
  | Some _ => true
  | None => match s with [] => false | _ :: s' => re_search r s' end
  end.

(** The pattern whose text is [sep.join(rs)]. *)
Fixpoint re_join (sep : regex) (rs : list regex) : regex :=
  match rs with
  | [] => Eps
  | [r] => r
  | r :: rs' => Seq r (Seq sep (re_join sep rs'))
  end.

(** The pattern whose text is the text of [p] followed by the text of [q]:
    [|] binds weakest, so [q] continues the last alternative of [p]. *)
Fixpoint re_append (p q : regex) : regex :=
  match p with
  | Alt a b => Alt a (re_append b q)
  | _ => Seq p q
  end.

End Re.

(** ** [truncat] *)

(** [re.sub(pattern + '.*', '', str)], for a pattern that has a tree: [.*]
    is appended to the text of the pattern. *)
Definition truncat (s : str) (pattern : regex) : str :=
  re_sub (re_append pattern (Star Any)) [] s.

(** ** The document tree of [bs4] *)

(** The value of an attribute in the dict of a tag: a string, or a list of
    strings for an attribute such as [class]. *)
Inductive attr_value : Type :=
| Single (value : str)
| Multiple (values : list str).

(** [tag.attrs]: the dict the parser builds, as its items in the order of
    the dict, or the list that [sanitize] assigns. *)
Inductive attrs : Type :=
| AttrsDict (items : list (str * attr_value))
| AttrsList (pairs : list (str * str)).

(** What [sanitize] reads and writes of a tag object. *)
Record tag_state : Type := TagState { tag_attrs : attrs; hidden : bool }.

(** A node is a string, a comment, another string that is printed between
    delimiters ([CData], [Doctype], a declaration or a processing
    instruction), or a tag. [A] is what a tag holds besides its name and its
    contents: its dict in the tree of the parser, its state once the loop of
    [sanitize] has visited it. *)
Inductive node (A : Type) : Type :=
| NavigableString (text : str)
| Comment (text : str)
| Preformatted (prefix text suffix : str)
| Tag (name : str) (held : A) (contents : list (node A)).
Arguments NavigableString {A} text.
Arguments Comment {A} text.
Arguments Preformatted {A} prefix text suffix.
Arguments Tag {A} name held contents.

(** What the parser does with a fragment: a tree, given as the list of the
    nodes at its top, or an exception [e], given as [str(e)]. *)
Inductive parsed : Type :=
| Soup (contents : list (node (list (str * attr_value))))
| ParserRaises (message : str).

Section Soup.

(** The output formatter [minimal]: [&], [<] and [>] of a string become
    entities. *)
Definition escape (text : str) : str :=
  text ≫= λ c,
    if decide (c = "&"%char) then py "&amp;"
    else if decide (c = "<"%char) then py "&lt;"
    else if decide (c = ">"%char) then py "&gt;"
    else [c].

(** A string directly inside [script] or [style] is printed as it is. *)
Definition cdata_containing (name : str) : bool :=
  bool_decide (name = py "script" ∨ name = py "style").

(** The markup of a tag that is not hidden, from its name, the items of its
    dict and what its contents print. *)
Variable tag_markup : str → list (str * attr_value) → str → str.

(** [decode]: what a node prints; [cdata] says whether its parent is
    [script] or [style]. The attributes of a tag are read with
    [tag.attrs.items()], which a list does not have. A hidden tag prints
    what its contents print. ([sanitize] hides no tag to which it has given
    a list.) *)
Fixpoint decode (cdata : bool) (n : node tag_state) : result str :=
  match n with
  | NavigableString text => Ok (if cdata then text else escape text)
  | Comment text => Ok (py "<!--" ++ text ++ py "-->")
  | Preformatted prefix text suffix => Ok (prefix ++ text ++ suffix)
  | Tag name state contents =>
      match tag_attrs state with
      | AttrsList _ => Raise AttributeError
      | AttrsDict items =>
          inner ← mapM (decode (cdata_containing name)) contents;
          Ok (if hidden state then concat inner
              else tag_markup name items (concat inner))
      end
  end.

(** [soup.renderContents().decode('utf8')] *)
Definition renderContents (soup : list (node tag_state)) : result str :=
  inner ← mapM (decode false) soup; Ok (concat inner).

(** [for comment in soup.findAll(text=lambda text: isinstance(text, Comment)):
    comment.extract()]: every comment node, at any depth, leaves the tree. *)
Fixpoint extract_comments {A : Type} (n : node A) : list (node A) :=
  match n with
  | Comment _ => []
  | Tag name held contents => [Tag name held (contents ≫= extract_comments)]
  | _ => [n]
  end.

End Soup.

(** ** [sanitize] *)

(** The pattern [r'[\s]*(&#x.{1,7})?'], which [sanitize] puts between the
    letters. *)
Definition js_gap : regex :=
  Seq (Star (Cls isspace))
    (Rep (Group (Seq (Chr "&") (Seq (Chr "#") (Seq (Chr "x") (Rep Any 1 7)))))
       0 1).

(** [re.compile(r'[\s]*(&#x.{1,7})?'.join(list('javascript')))] *)
Definition js_regex : regex := re_join js_gap (Chr <$> py "javascript").

(** [dict(pairs)]: a later pair overwrites an earlier one with its key. *)
Definition dict (pairs : list (str * list str)) : gmap str (list str) :=
  foldl (λ m kv, <[kv.1 := kv.2]> m) ∅ pairs.

(** [d[k]] *)
Definition dict_getitem (d : gmap str (list str)) (k : str)
  : result (list str) :=
  match d !! k with
  | Some v => Ok v
  | None => Raise KeyError
  end.

(** [dict((tag[0], tag[1:]) for tag in
          [tag.split(':') for tag in allowed_tags.split()])] *)
Definition parse_allowed_tags (allowed_tags : str)
  : result (gmap str (list str)) :=
  let allowed_tags := split_char ":" <$> split allowed_tags in
  pairs ← mapM (λ tag, t0 ← getitem tag 0; Ok (t0, drop 1 tag)) allowed_tags;
  Ok (dict pairs).

(** [attr, val = key] for a key of the dict: a string is unpacked into its
    characters, and there have to be two. *)
Definition unpack_key (key : str) : result (str * str) :=
  match key with
  | [a; b] => Ok ([a], [b])
  | _ => Raise ValueError
  end.

(** [[(attr, js_regex.sub('', val)) for attr, val in tag.attrs
      if attr in allowed_tags[name]]]: the loop over a dict goes over its
    keys. *)
Fixpoint keep_attrs (allowed_tags : gmap str (list str)) (name : str)
  (keys : list str) : result (list (str * str)) :=
  match keys with
  | [] => Ok []
  | key :: keys' =>
      '(attr, val) ← unpack_key key;
      names ← dict_getitem allowed_tags name;
      let item := (attr, re_sub js_regex [] val) in
      rest ← keep_attrs allowed_tags name keys';
      Ok (if bool_decide (attr ∈ names) then item :: rest else rest)
  end.

(** The body of [for tag in soup.findAll(True)], at one tag and then at the
    tags below it. The parser builds a tag that is not hidden. *)
Fixpoint filter_tags (allowed_tags : gmap str (list str))
  (n : node (list (str * attr_value))) : result (node tag_state) :=
  match n with
  | NavigableString text => Ok (NavigableString text)
  | Comment text => Ok (Comment text)
  | Preformatted prefix text suffix => Ok (Preformatted prefix text suffix)
  | Tag name items contents =>
      state ←
        (if bool_decide (allowed_tags !! name = None)
         then Ok (TagState (AttrsDict items) true)
         else pairs ← keep_attrs allowed_tags name items.*1;
              Ok (TagState (AttrsList pairs) false));
      contents ← mapM (filter_tags allowed_tags) contents;
      Ok (Tag name state contents)
  end.

Section Sanitize.
(** [ugettext], Django's [linenumbers(value, True)], the parser, and the
    markup [bs4] prints for a tag that is not hidden. *)
Variable ugettext : str → str.
Variable linenumbers : str → bool → str.
Variable BeautifulSoup : str → parsed.
Variable tag_markup : str → list (str * attr_value) → str → str.

Definition syntax_error_hint : str :=
  py "You have a HTML syntax error, please, check you have quote href and src attributes, that is href="
  ++ [dquote] ++ py "xxx" ++ [dquote] ++ py " or src=" ++ [dquote]
  ++ py "yyy" ++ [dquote] ++ py " and not href=xxx or src=yyy".

(** The value of the [except] branch. *)
Definition diagnostic (message value : str) : str :=
  py "<br><span class=" ++ [dquote] ++ py "warning" ++ [dquote] ++ py ">"
  ++ message ++ py " :<br>" ++ ugettext syntax_error_hint
  ++ py "</span><br><pre class=" ++ [dquote] ++ py "sanitize" ++ [dquote]
  ++ py ">" ++ linenumbers value true ++ py "</pre>".

Definition sanitize (value allowed_tags : str) : result str :=
  allowed_tags ← parse_allowed_tags allowed_tags;
  match BeautifulSoup value with
  | ParserRaises message => Ok (diagnostic message value)
  | Soup soup =>
      let soup := soup ≫= extract_comments in
      soup ← mapM (filter_tags allowed_tags) soup;
      renderContents tag_markup soup
  end.

(** [getattr(settings, 'SANITIZE_SIMPLE_HTML_TAGS', ...)], the default. *)
Definition sanitize_simple_html_tags : str :=
  py "a:href b u p i h1 h2 h3 hr img:src table tr td th code".

Definition sanitize_simple_html (value : str) : result str :=
  sanitize value sanitize_simple_html_tags.

End Sanitize.

(** ** [basename] and [dirname] *)

Section Path.

(** [os.path] of a POSIX platform. [rpartition_slash p] is
    [(p[:i], p[i:])] for [i = p.rfind('/') + 1]: the part up to and with
    the last slash, and the part after it. *)
Fixpoint rpartition_slash (p : str) : str * str :=
  match p with
  | [] => ([], [])
  | c :: p' =>
      let '(head, tail) := rpartition_slash p' in
      match head with
      | [] => if decide (c = "/"%char) then ([c], tail) else ([], c :: tail)
      | _ :: _ => (c :: head, tail)
      end
  end.

(** [s.rstrip('/')] *)
Fixpoint rstrip_slash (s : str) : str :=
  match s with
  | [] => []
  | c :: s' =>
      match rstrip_slash s' with
      | [] => if decide (c = "/"%char) then [] else [c]
      | r => c :: r
      end
  end.

(** [head == '/' * len(head)] *)
Definition all_slashes (head : str) : bool :=
  forallb (λ c, bool_decide (c = "/"%char)) head.

(** [os.path.basename] *)
Definition path_basename (p : str) : str := (rpartition_slash p).2.

(** [os.path.dirname] *)
Definition path_dirname (p : str) : str :=
  let head := (rpartition_slash p).1 in
  match head with
  | [] => head
  | _ :: _ => if all_slashes head then head else rstrip_slash head
  end.

End Path.

Definition basename (s : str) : str := path_basename s.

Definition dirname (s : str) : str := path_dirname s.

(** ** [multiply] *)

(** A value that is an [int] or a [str], for the filter that takes both. *)
Inductive value : Type :=
| Int (n : Z)
| Str (s : str).

Section Multiply.
(** [sys.maxsize], the largest index of the platform, and the length of the
    longest string the interpreter finds memory for. *)
Variable maxsize : Z.
Variable available : N.

(** [s * n] for a string and an integer. The count has to be an index. No
    string is built when the count is not positive or is one. The length of
    the result has to be an index as well, and the result has to fit in
    memory. *)
Definition str_mul (s : str) (n : Z) : result str :=
  if (n <? - maxsize - 1) || (maxsize <? n) then Raise OverflowError
  else if n <=? 0 then Ok []
  else if n =? 1 then Ok s
  else if maxsize / n <? Z.of_nat (length s) then Raise OverflowError
  else if Z.of_N available <? Z.of_nat (length s) * n then Raise MemoryError
  else Ok (concat (replicate (Z.to_nat n) s)).

(** [a * b] *)
Definition py_mul (a b : value) : result value :=
  match a, b with
  | Int m, Int n => Ok (Int (m * n))
  | Str s, Int n => r ← str_mul s n; Ok (Str r)
  | Int n, Str s => r ← str_mul s n; Ok (Str r)
  | Str _, Str _ => Raise TypeError
  end.

Definition multiply (val arg : value) : result value := py_mul val arg.

End Multiply.

(** ** Exceptions of the libraries *)

Inductive raised : Type :=
| Builtin (e : exn)
| ReError (message : str)
| VariableDoesNotExist
| OtherException (message : str).

Inductive outcome (A : Type) : Type :=
| Returns (a : A)
| Raises (e : raised).
Arguments Returns {A} a.
Arguments Raises {A} e.

#[global] Instance outcome_ret : MRet outcome := fun A a => Returns a.
#[global] Instance outcome_bind : MBind outcome := fun A B f m =>
  match m with
  | Returns a => f a
  | Raises e => Raises e
  end.

Definition of_result {A : Type} (r : result A) : outcome A :=
  match r with
  | Ok a => Returns a
  | Raise e => Raises (Builtin e)
  end.

(** ** [resub] *)

Section Resub.
(** A compiled pattern; [re.compile(pat, flags)], where the flag says
    whether [re.I] is passed; [regex.sub(rep, s)], which raises on a
    replacement template that is not well formed. *)
Variable pattern : Type.
Variable re_compile : str → bool → outcome pattern.
Variable regex_sub : pattern → str → str → outcome str.

Definition resub (s arg : str) : outcome str :=
  sep ← of_result (getitem arg 0);
  let params := split_char sep arg in
  pat ← of_result (getitem params 1);
  rep ← of_result (getitem params 2);
  let flags := bool_decide (last params = Some (py "i")) in
  regex ← re_compile pat flags;
  regex_sub regex rep s.

End Resub.

(** ** [hash] *)

Section Hash.
(** [Variable(name).resolve({'object': object})], for the objects and the
    values of the template engine. *)
Variable object : Type.
Variable resolved : Type.
Variable resolve : str → object → outcome resolved.

Definition hash (obj : object) (attr : str) : outcome (option resolved) :=
  match resolve (py "object." ++ attr) obj with
  | Returns v => Returns (Some v)
  | Raises VariableDoesNotExist =>
      match resolve (py "object.default_index") obj with
      | Returns v => Returns (Some v)
      | Raises VariableDoesNotExist => Returns None
      | Raises e => Raises e
      end
  | Raises e => Raises e
  end.

End Hash.

(** ** [listsort] *)

(** [sorted(lst)] for a list of integers. *)
Definition sorted (lst : list Z) : list Z := merge_sort Z.le lst.

(** [lst] is [None] when the filter gets Python's [None]. *)
Definition listsort (lst : option (list Z)) : list Z :=
  match lst with
  | None => []
  | Some [] => []
  | Some lst => sorted lst
  end.

(** ** Notions the statements below use *)

(** The parts [replace] sees: [arg.split(arg[0])], and no part when [arg]
    is empty. *)
Definition parts (arg : str) : list str :=
  match arg with
  | [] => []
  | sep :: _ => split_char sep arg
  end.

(** No occurrence of [old] starts inside [pre], when [pre] is followed by
    [suf]. *)
Definition none_starts_in (old pre suf : str) : Prop :=
  ∀ p1 p2, pre = p1 ++ p2 → p2 ≠ [] → ¬ old `prefix_of` (p2 ++ suf).

(** No match of [r] starts inside [pre], when [pre] is followed by [suf]. *)
Definition no_match_starts_in (r : regex) (pre suf : str) : Prop :=
  ∀ p1 p2, pre = p1 ++ p2 → p2 ≠ [] → re_match r (p2 ++ suf) = None.



(** The policy that [sanitize] reads from its second argument. *)
Definition policy_of (allowed_tags : str) : gmap str (list str) :=
  dict ((λ tag, (default [] (head tag), drop 1 tag))
          <$> (split_char ":" <$> split allowed_tags)).

(** Some tag of the tree is a key of the policy. *)
Fixpoint names_key {A : Type} (policy : gmap str (list str)) (n : node A)
  : bool :=
  match n with
  | Tag name _ contents =>
      bool_decide (policy !! name ≠ None)
      || existsb (names_key policy) contents
  | _ => false
  end.

(** Some tag of the tree is a key of the policy and has an attribute whose
    name is not of two characters. *)
Fixpoint unpack_fails (policy : gmap str (list str))
  (n : node (list (str * attr_value))) : bool :=
  match n with
  | Tag name items contents =>
      bool_decide (policy !! name ≠ None)
      && existsb (λ key, negb (length key =? 2)%nat) items.*1
      || existsb (unpack_fails policy) contents
  | _ => false
  end.

(** The list that the loop assigns to a tag whose attribute names all have
    two characters: a name goes in when its first character is in the
    allowed set, as the pair of its characters. *)
Definition kept (names : list str) (keys : list str) : list (str * str) :=
  keys ≫= λ key,
    match key with
    | [a; b] =>
        if bool_decide ([a] ∈ names) then [([a], re_sub js_regex [] [b])]
        else []
    | _ => []
    end.

(** The tree after the loop over the tags, when no name fails to unpack. *)
Fixpoint marked (policy : gmap str (list str))
  (n : node (list (str * attr_value))) : node tag_state :=
  match n with
  | NavigableString text => NavigableString text
  | Comment text => Comment text
  | Preformatted prefix text suffix => Preformatted prefix text suffix
  | Tag name items contents =>
      Tag name
        (match policy !! name with
         | None => TagState (AttrsDict items) true
         | Some names => TagState (AttrsList (kept names items.*1)) false
         end)
        (marked policy <$> contents)
  end.

(** What a tree prints when every tag of it is hidden: its strings, its
    comments included. *)
Fixpoint printed {A : Type} (cdata : bool) (n : node A) : str :=
  match n with
  | NavigableString text => if cdata then text else escape text
  | Comment text => py "<!--" ++ text ++ py "-->"
  | Preformatted prefix text suffix => prefix ++ text ++ suffix
  | Tag name _ contents => contents ≫= printed (cdata_containing name)
  end.

(** The strings of a tree as they are printed, without its comments. *)
Fixpoint text_of {A : Type} (cdata : bool) (n : node A) : str :=
  match n with
  | NavigableString text => if cdata then text else escape text
  | Comment _ => []
  | Preformatted prefix text suffix => prefix ++ text ++ suffix
  | Tag name _ contents => contents ≫= text_of (cdata_containing name)
  end.

(** Every string of the tree is printed escaped: the tree has no string
    directly inside [script] or [style] and no string that is printed
    between delimiters. *)
Fixpoint escaped_only {A : Type} (cdata : bool) (n : node A) : bool :=
  match n with
  | NavigableString _ => negb cdata
  | Comment _ => true
  | Preformatted _ _ _ => false
  | Tag name _ contents => forallb (escaped_only (cdata_containing name)) contents
  end.

(** [x] is a node of the tree [l], at any depth. *)
Inductive occurs {A : Type} (x : node A) : list (node A) → Prop :=
| occurs_here l : x ∈ l → occurs x l
| occurs_below name held contents l :
    Tag name held contents ∈ l → occurs x contents → occurs x l.

(** [d1 <= d2] on dates: year, then month, then day. *)
Definition date_le (d1 d2 : date) : Prop :=
  year d1 < year d2
  ∨ (year d1 = year d2
     ∧ (month d1 < month d2 ∨ (month d1 = month d2 ∧ day d1 ≤ day d2))).

(** The microseconds from [t1] to [t2]. *)
Definition microseconds_between (t1 t2 : datetime) : Z :=
  ((toordinal t2 - toordinal t1) * 86400
   + (second_of_day t2 - second_of_day t1)) * 1000000
  + (microsecond t2 - microsecond t1).

(** * Properties *)

(** ** [divide] *)

Section FloatFacts.
Local Open Scope Z_scope.




End FloatFacts.



(** ** [age] *)

Lemma tuple_lt_precedes (a b : Z * Z) : tuple_lt a b = true ↔ precedes a b.
Proof.
  unfold tuple_lt, precedes. destruct (Z.eqb_spec a.1 b.1); lia.
Qed.

(** C8: [age(bday, d)] is [d.year - bday.year], less one exactly when
    [(d.month, d.day)] precedes [(bday.month, bday.day)]; the day before the
    twelfth birthday the age is 11, on the birthday it is 12. *)
Theorem age_birthday_rule (today bday d : date) :
  age today bday (Some d)
  = year d - year bday
    - (if decide (precedes (month d, day d) (month bday, day bday))
       then 1 else 0)
  ∧ age today (Date 2006 11 9) (Some (Date 2018 11 8)) = 11
  ∧ age today (Date 2006 11 9) (Some (Date 2018 11 9)) = 12.
Proof.
  split; [|done]. unfold age, int_of_bool.
  destruct (tuple_lt _ _) eqn:E; case_decide as Hp; try done.
  - apply tuple_lt_precedes in E. contradiction.
  - apply tuple_lt_precedes in Hp. congruence.
Qed.

(** Without a second date the age is taken today. *)
Lemma age_default (today bday : date) :
  age today bday None = age today bday (Some today).
Proof. reflexivity. Qed.

(** ** [timesince_simple] *)

(** C9: a duration of zero days does not give the phrase for today: the
    test [if days:] around the chain of thresholds sends it past every
    [return], and the function returns [None]. *)
Theorem timesince_simple_zero_days (ugettext : str → str)
  (now t1 t2 : datetime) :
  days (datetime_sub t2 t1) = 0 →
  timesince_simple ugettext now t1 (Some t2) = Ok None.
Proof. unfold timesince_simple. intros ->. reflexivity. Qed.

Lemma timesince_simple_zero_days_witness :
  timesince_simple id (Datetime 737425 0 0) (Datetime 737425 3600 0)
    (Some (Datetime 737425 7200 0)) = Ok None.
Proof. apply timesince_simple_zero_days. reflexivity. Defined.

(** The branch for today is never taken, whatever the two times are. *)
Lemma timesince_simple_never_today (now t1 : datetime) (t2 : option datetime) :
  timesince_simple id now t1 t2 ≠ Ok (Some (py "today")).
Proof.
  unfold timesince_simple.
  set (n := days _). destruct (Z.eqb_spec n 0) as [|Hn]; [done|]. simpl.
  repeat case_match; try done.
  all: unfold percent_d, id, py; simpl; intros [= E]; revert E.
  all: destruct (decimal _) as [|? [|? [|? [|? [|? [|? ?]]]]]]; done.
Qed.

(** The thresholds 7, 14, 30, 60, 365 and 730 for a duration that is not of
    zero days. *)
Lemma timesince_simple_buckets (now t1 t2 : datetime) :
  let n := days (datetime_sub t2 t1) in
  n ≠ 0 →
  timesince_simple id now t1 (Some t2) =
    Ok (Some
      (if decide (n < 7) then decimal n ++ py " days"
       else if decide (n < 14) then py "one week"
       else if decide (n < 30) then decimal (n ÷ 7) ++ py " weeks"
       else if decide (n < 60) then py "one month"
       else if decide (n < 365) then decimal (n ÷ 30) ++ py " months"
       else if decide (n < 730) then py "one year"
       else decimal ((4 * n) ÷ 1461) ++ py " years")).
Proof.
  intros n Hn. unfold timesince_simple. fold n.
  destruct (Z.eqb_spec n 0); [done|]. simpl.
  repeat (match goal with
          | |- context [?a <? ?b] => destruct (Z.ltb_spec a b)
          end; case_decide; try lia; try done).
Qed.

(** ** [replace] *)

Section Replace.
Implicit Types (s old new pre post : str) (sep : ascii).

Lemma split_char_nonempty sep s : ∃ w ws, split_char sep s = w :: ws.
Proof.
  induction s as [|c s (w & ws & IH)]; simpl; [by eauto|].
  case_decide; [by eauto|]. rewrite IH. by eauto.
Qed.

Lemma split_char_no_sep sep s : sep ∉ s → split_char sep s = [s].
Proof.
  induction s as [|c s IH]; simpl; [done|].
  intros [Hc Hs]%not_elem_of_cons. case_decide; [congruence|].
  by rewrite IH.
Qed.

Lemma split_char_first_part sep pat rest :
  sep ∉ pat → split_char sep (pat ++ sep :: rest) = pat :: split_char sep rest.
Proof.
  induction pat as [|c pat IH]; simpl.
  - intros _. by case_decide.
  - intros [Hc Hs]%not_elem_of_cons. case_decide; [congruence|].
    by rewrite IH.
Qed.

(** There is one part more than there are separators. *)
Lemma split_char_length sep s :
  length (split_char sep s) = S (length (filter (λ c, c = sep) s)).
Proof.
  induction s as [|c s IH]; [done|].
  rewrite filter_cons. cbn [split_char].
  case_decide; simpl; [by rewrite IH|].
  destruct (split_char_nonempty sep s) as (w & ws & E).
  rewrite E in IH |- *. done.
Qed.

Lemma replace_from_skip old new m post :
  replace_from old new (length m) (m ++ post) = replace_from old new 0 post.
Proof. induction m as [|c m IH]; simpl; [by destruct post|done]. Qed.

(** The leftmost occurrence is replaced, and the search goes on after it. *)
Lemma str_replace_first old new pre post :
  old ≠ [] →
  none_starts_in old pre (old ++ post) →
  str_replace (pre ++ old ++ post) old new
  = pre ++ new ++ str_replace post old new.
Proof.
  unfold str_replace. intros Hold.
  induction pre as [|c pre IH]; intros Hnone.
  - destruct old as [|o old]; [done|]. simpl.
    rewrite bool_decide_eq_true_2; [|by exists post].
    by rewrite replace_from_skip.
  - simpl. rewrite bool_decide_eq_false_2.
    + f_equal. apply IH. intros p1 p2 -> Hp2.
      by apply (Hnone (c :: p1) p2).
    + by apply (Hnone [] (c :: pre)).
Qed.

(** A string in which [old] does not occur is returned as it is. *)
Lemma str_replace_absent old new t :
  old ≠ [] → none_starts_in old t [] → str_replace t old new = t.
Proof.
  unfold str_replace. intros Hold.
  induction t as [|c t IH]; intros Hnone.
  - by destruct old.
  - simpl. rewrite bool_decide_eq_false_2.
    + f_equal. apply IH. intros p1 p2 -> Hp2.
      by apply (Hnone (c :: p1) p2).
    + specialize (Hnone [] (c :: t) eq_refl). rewrite app_nil_r in Hnone.
      by apply Hnone.
Qed.

Lemma replace_uses_parts s arg pat rep :
  parts arg !! 1%nat = Some pat → parts arg !! 2%nat = Some rep →
  replace s arg = Ok (str_replace s pat rep).
Proof.
  unfold replace, parts, getitem. destruct arg as [|sep arg]; [done|].
  cbn [lookup list_lookup mbind result_bind].
  by intros -> ->.
Qed.

Lemma replace_raises s arg :
  replace s arg = Raise IndexError ↔ (length (parts arg) < 3)%nat.
Proof.
  unfold replace, parts, getitem.
  destruct arg as [|sep arg]; [simpl; split; [lia|done]|].
  cbn [lookup list_lookup mbind result_bind].
  destruct (split_char sep (sep :: arg)) as [|p0 [|p1 [|p2 ps]]] eqn:E;
    simpl; split; intros; first [done | lia].
Qed.

End Replace.

(** C6 (as the code has it): [replace(s, arg)] splits [arg] by its first
    character and takes the second and the third part as the text to look
    for and its replacement; the call raises [IndexError] exactly when there
    are fewer than three parts, and parts after the third are ignored. Every
    occurrence of the text, found from left to right, is replaced:
    [replace("hello world", "/world/eric")] is ["hello eric"]. *)
Theorem replace_splits_on_first_char (s arg : str) :
  (replace s arg = Raise IndexError ↔ (length (parts arg) < 3)%nat)
  ∧ (∀ pat rep,
       parts arg !! 1%nat = Some pat → parts arg !! 2%nat = Some rep →
       replace s arg = Ok (str_replace s pat rep))
  ∧ (∀ sep pat rep extra,
       arg = sep :: pat ++ sep :: rep ++ extra → sep ∉ pat → sep ∉ rep →
       extra = [] ∨ head extra = Some sep →
       parts arg !! 1%nat = Some pat ∧ parts arg !! 2%nat = Some rep)
  ∧ (∀ old new pre post,
       old ≠ [] → none_starts_in old pre (old ++ post) →
       str_replace (pre ++ old ++ post) old new
       = pre ++ new ++ str_replace post old new)
  ∧ (∀ old new t,
       old ≠ [] → none_starts_in old t [] → str_replace t old new = t)
  ∧ replace (py "hello world") (py "/world/eric") = Ok (py "hello eric").
Proof.
  split; [apply replace_raises|].
  split; [intros; by apply replace_uses_parts|].
  split; [|split; [intros; by apply str_replace_first|
           split; [intros; by apply str_replace_absent|reflexivity]]].
  intros sep pat rep extra -> Hpat Hrep Hextra. unfold parts.
  change (sep :: pat ++ sep :: rep ++ extra)
    with ([] ++ sep :: pat ++ sep :: rep ++ extra).
  rewrite split_char_first_part by apply not_elem_of_nil.
  rewrite split_char_first_part by done.
  destruct Hextra as [->|Hextra].
  - rewrite app_nil_r, split_char_no_sep by done. done.
  - destruct extra as [|e extra]; [done|]. injection Hextra as ->.
    rewrite split_char_first_part by done. done.
Qed.

(** With four parts the call returns: the fourth part is not looked at. *)
Lemma replace_four_parts :
  length (parts (py "/world/eric/x")) = 4%nat
  ∧ replace (py "hello world") (py "/world/eric/x") = Ok (py "hello eric").
Proof. split; reflexivity. Qed.

(** ** Facts about the matcher *)

Section ReFacts.
Implicit Types (r p q : regex) (s pre suf post repl : str).

Lemma cands_seq a b s : cands (Seq a b) s = cands a s ≫= cands b.
Proof. done. Qed.

Lemma star_cands_suffix (step : str → list str) :
  (∀ s s', s' ∈ step s → s' `suffix_of` s) →
  ∀ n s s', s' ∈ star_cands step n s → s' `suffix_of` s.
Proof.
  intros Hstep n. induction n as [|n IH]; intros s s'; simpl.
  - by intros ->%list_elem_of_singleton.
  - intros [(x & Hx & Hin)%list_elem_of_bind
           | ->%list_elem_of_singleton]%elem_of_app; [|done].
    case_match; [|by apply elem_of_nil in Hx].
    etrans; [by apply IH | by apply Hstep].
Qed.

Lemma rep_cands_suffix (step : str → list str) :
  (∀ s s', s' ∈ step s → s' `suffix_of` s) →
  ∀ hi lo s s', s' ∈ rep_cands step lo hi s → s' `suffix_of` s.
Proof.
  intros Hstep hi. induction hi as [|hi IH]; intros lo s s'; simpl.
  - destruct lo; [by intros ->%list_elem_of_singleton|by intros ?%elem_of_nil].
  - intros [(x & Hx & Hin)%list_elem_of_bind | Hlast]%elem_of_app.
    + etrans; [by eapply IH | by apply Hstep].
    + destruct lo; [by apply list_elem_of_singleton in Hlast as ->
                   |by apply elem_of_nil in Hlast].
Qed.

(** Every candidate is what is left of the input: a suffix of it. *)
Lemma cands_suffix r s s' : s' ∈ cands r s → s' `suffix_of` s.
Proof.
  revert s s'.
  induction r as [|c| |f|a IHa b IHb|a IHa b IHb|a IHa|a IHa|a IHa lo hi];
    intros s s'; simpl.
  - by intros ->%list_elem_of_singleton.
  - destruct s as [|x s]; [by intros ?%elem_of_nil|].
    case_decide; [|by intros ?%elem_of_nil].
    intros ->%list_elem_of_singleton. by apply suffix_cons_r.
  - destruct s as [|x s]; [by intros ?%elem_of_nil|].
    case_decide; [by intros ?%elem_of_nil|].
    intros ->%list_elem_of_singleton. by apply suffix_cons_r.
  - destruct s as [|x s]; [by intros ?%elem_of_nil|].
    destruct (f x); [|by intros ?%elem_of_nil].
    intros ->%list_elem_of_singleton. by apply suffix_cons_r.
  - intros (x & Hx & Hin)%list_elem_of_bind.
    etrans; [by apply IHb | by apply IHa].
  - intros [?|?]%elem_of_app; [by apply IHa | by apply IHb].
  - apply IHa.
  - by apply star_cands_suffix.
  - by apply rep_cands_suffix.
Qed.

(** A loop over single characters first takes the whole run [w] of
    characters it accepts, when it cannot go on after the run. *)
Lemma star_cands_run (step : str → list str) (w rest : str) (n : nat) :
  (∀ c s, c ∈ w → step (c :: s) = [s]) →
  step rest = [] →
  (length (w ++ rest) ≤ n)%nat →
  ∃ l, star_cands step n (w ++ rest) = rest :: l.
Proof.
  intros Hstep Hrest. revert n.
  induction w as [|c w IH]; intros n Hlen.
  - destruct n; [by eexists|]. cbn [app star_cands]. rewrite Hrest.
    by eexists.
  - destruct n; [simpl in Hlen; lia|]. cbn [app star_cands].
    rewrite Hstep by left. rewrite bind_cons. cbn [mbind list_bind].
    replace (length (w ++ rest) <? length (c :: w ++ rest))%nat with true
      by (symmetry; apply Nat.ltb_lt; simpl; lia).
    destruct (IH (λ c s H, Hstep c s (list_elem_of_further _ _ _ H)) n)
      as [l ->]; [simpl in Hlen; lia|].
    by eexists.
Qed.

(** [.*] first takes everything up to the end of a string without
    newline. *)
Lemma star_any_all s :
  newline ∉ s → ∃ l, cands (Star Any) s = [] :: l.
Proof.
  intros Hnl. cbn [cands]. rewrite <-(app_nil_r s).
  apply star_cands_run; [|done|done].
  intros c s' Hc. cbn [cands]. rewrite decide_False; [done|].
  by intros ->.
Qed.

Lemma re_match_seq_none p q s :
  re_match p s = None → re_match (Seq p q) s = None.
Proof.
  unfold re_match. intros E%head_None. by rewrite cands_seq, E.
Qed.

(** [p] followed by [.*] matches where [p] matches, and then up to the end
    of a string without newline. *)
Lemma re_match_seq_dotstar p s :
  newline ∉ s → re_match p s ≠ None →
  re_match (Seq p (Star Any)) s = Some [].
Proof.
  unfold re_match. intros Hnl Hp. rewrite cands_seq.
  destruct (cands p s) as [|s1 l] eqn:E; [done|].
  rewrite bind_cons.
  assert (s1 `suffix_of` s) as [k ->].
  { apply (cands_suffix p). rewrite E. by left. }
  destruct (star_any_all s1) as [l' ->]; [|done].
  intros ?. apply Hnl, elem_of_app. by right.
Qed.

Lemma re_append_one_piece p q :
  (∀ a b, p ≠ Alt a b) → re_append p q = Seq p q.
Proof. intros Hp. destruct p; try done. by destruct (Hp p1 p2). Qed.

Lemma sub_from_skip r repl m post :
  sub_from r repl (length m) (m ++ post) = sub_from r repl 0 post.
Proof. induction m as [|c m IH]; [done|]. simpl. exact IH. Qed.

(** The text before the first match is copied. *)
Lemma sub_from_before r repl pre suf :
  no_match_starts_in r pre suf →
  sub_from r repl 0 (pre ++ suf) = pre ++ sub_from r repl 0 suf.
Proof.
  induction pre as [|c pre IH]; intros Hnone; [done|].
  assert (re_match r (c :: pre ++ suf) = None) as Hc
    by by apply (Hnone [] (c :: pre)).
  cbn [app sub_from]. rewrite Hc.
  f_equal. apply IH. intros p1 p2 -> Hp2. by apply (Hnone (c :: p1) p2).
Qed.

(** A match [m] that is not empty is replaced, and the search goes on after
    it. *)
Lemma sub_from_match r repl m post :
  m ≠ [] → re_match r (m ++ post) = Some post →
  sub_from r repl 0 (m ++ post) = repl ++ sub_from r repl 0 post.
Proof.
  intros Hm Hmatch. destruct m as [|c m]; [done|].
  cbn [app sub_from]. cbn [app] in Hmatch. rewrite Hmatch.
  replace (length (c :: m ++ post) - length post)%nat with (S (length m))
    by (simpl; rewrite length_app; lia).
  by rewrite sub_from_skip.
Qed.

Lemma sub_from_end r : sub_from r [] 0 [] = [].
Proof. simpl. by destruct (re_match r []). Qed.

End ReFacts.

(** ** [truncat] *)

(** X15: for a pattern that has a tree, that is, one written with literal
    characters, [.], character classes, parentheses and greedy repetitions,
    with no flag and no comment in its text, and that is not an alternation
    written without parentheses: when the string has no newline,
    [truncat(s, pattern)] is the part of [s] before the first match of the
    pattern; [truncat("abc...xyz", "\.")] is ["abc"]. *)
Lemma truncat_single_line (pattern : regex) (pre suf : str) :
  (∀ a b, pattern ≠ Alt a b) →
  newline ∉ pre ++ suf →
  no_match_starts_in pattern pre suf →
  re_match pattern suf ≠ None →
  truncat (pre ++ suf) pattern = pre
  ∧ truncat (py "abc...xyz") (Chr ".") = py "abc".
Proof.
  intros Hone Hnl Hnone Hmatch. split; [|reflexivity].
  unfold truncat, re_sub. rewrite re_append_one_piece by done.
  assert (newline ∉ suf) as Hsuf.
  { intros ?. apply Hnl, elem_of_app. by right. }
  rewrite sub_from_before.
  2:{ intros p1 p2 E Hp2. apply re_match_seq_none. by eapply Hnone. }
  rewrite <-(app_nil_r pre) at 2. f_equal.
  destruct suf as [|c suf]; [apply sub_from_end|].
  rewrite <-(app_nil_r (c :: suf)).
  rewrite sub_from_match.
  - apply sub_from_end.
  - done.
  - rewrite app_nil_r. by apply re_match_seq_dotstar.
Qed.

Example truncat_single_line_example :
  truncat (py "abc" ++ py "...xyz") (Chr ".") = py "abc"
  ∧ truncat (py "abc...xyz") (Chr ".") = py "abc".
Proof.
  apply truncat_single_line.
  - done.
  - apply (bool_decide_unpack _). by vm_compute.
  - intros p1 p2 E Hp2. destruct p2 as [|x p2]; [done|].
    assert (x ∈ py "abc") as Hx by (rewrite E; apply elem_of_app; right; left).
    vm_compute in Hx. unfold re_match. cbn [app cands].
    rewrite decide_False; [done|].
    intros ->. repeat (apply elem_of_cons in Hx as [Hx|Hx]; [done|]).
    by apply elem_of_nil in Hx.
  - done.
Defined.

(** C10: at a string of two lines [truncat] does not return the part
    before the first match. The pattern [\.] first matches after the
    [a] of the first line; [.*] stops at the newline, so only the rest of
    that line goes and the second line stays. With an alternation, [.*]
    belongs to the last alternative only. *)
Theorem truncat_stops_at_line_end :
  re_match (Chr ".") (py "a." ++ [ "b"; newline; "c" ]%char) = None
  ∧ re_match (Chr ".") (py "." ++ [ "b"; newline; "c" ]%char) ≠ None
  ∧ truncat (py "a." ++ [ "b"; newline; "c" ]%char) (Chr ".")
    = [ "a"; newline; "c" ]%char
  ∧ truncat (py "a." ++ [ "b"; newline; "c" ]%char) (Chr ".") ≠ py "a"
  ∧ truncat (py "xayb") (Alt (Chr "a") (Chr "b")) = py "xy"
  ∧ truncat (py "xayb") (Alt (Chr "a") (Chr "b")) ≠ py "x".
Proof. repeat split; done. Qed.

(** ** The scrubber of [sanitize] *)

Section Scrub.
Implicit Types (w pre post : str) (ws : list str).



Lemma re_join_cons sep r1 r2 rs :
  re_join sep (r1 :: r2 :: rs) = Seq r1 (Seq sep (re_join sep (r2 :: rs))).
Proof. done. Qed.




Lemma js_regex_starts_with_j c s :
  c ≠ "j"%char → re_match js_regex (c :: s) = None.
Proof.
  intros Hc. unfold re_match, js_regex.
  change (Chr <$> py "javascript")
    with (Chr "j" :: Chr "a" :: (Chr <$> py "vascript")).
  rewrite re_join_cons, cands_seq. cbn [cands].
  by rewrite decide_False.
Qed.

End Scrub.

(** No match starts in a text without [j]. *)
Lemma js_regex_needs_j (pre suf : str) :
  "j"%char ∉ pre → no_match_starts_in js_regex pre suf.
Proof.
  intros Hj p1 p2 -> Hp2. destruct p2 as [|c p2]; [done|].
  apply js_regex_starts_with_j. intros ->. apply Hj.
  apply elem_of_app. right. by left.
Qed.




(** A reference [&#x...] between two letters is deleted with the keyword. *)
Lemma js_scrub_reference_between_letters :
  re_sub js_regex [] (py "jav&#x0A;ascript:alert(1)") = py ":alert(1)".
Proof. vm_compute. reflexivity. Qed.

(** ** Facts about the tree and the policy *)

Section SoupFacts.
Implicit Types (policy : gmap str (list str)).

Lemma node_ind' {A : Type} (P : node A → Prop) :
  (∀ text, P (NavigableString text)) →
  (∀ text, P (Comment text)) →
  (∀ prefix text suffix, P (Preformatted prefix text suffix)) →
  (∀ name held contents, Forall P contents → P (Tag name held contents)) →
  ∀ n, P n.
Proof.
  intros Htext Hcomment Hpre Htag. fix IH 1.
  intros [text|text|prefix text suffix|name held contents];
    [apply Htext|apply Hcomment|apply Hpre|apply Htag].
  exact ((fix go (cs : list (node A)) : Forall P cs :=
            match cs with
            | [] => Forall_nil_2 P
            | c :: cs' => Forall_cons_2 P c cs' (IH c) (go cs')
            end) contents).
Qed.

Lemma mapM_total {A B} (f : A → result B) (g : A → B) (l : list A) :
  Forall (λ a, f a = Ok (g a)) l → mapM f l = Ok (g <$> l).
Proof.
  induction 1 as [|a l Ha _ IH]; [done|].
  cbn [mapM] in IH |- *. rewrite Ha. cbn [mbind result_bind].
  by rewrite IH.
Qed.

(** A loop whose body raises [e] at the elements that are [bad], and nothing
    else: it raises [e] when some element is [bad]. *)
Lemma mapM_cases {A B C} (f : B → result C) (h : A → B) (e : exn)
    (bad : A → bool) (g : A → C) (l : list A) :
  Forall (λ a, f (h a) = if bad a then Raise e else Ok (g a)) l →
  mapM f (h <$> l) = if existsb bad l then Raise e else Ok (g <$> l).
Proof.
  induction 1 as [|a l Ha _ IH]; [done|].
  cbn [mapM fmap list_fmap existsb] in IH |- *. rewrite Ha.
  destruct (bad a); [done|]. cbn [mbind result_bind orb].
  rewrite IH. by destruct (existsb bad l).
Qed.

Lemma mapM_cases_id {A B} (f : A → result B) (e : exn) (bad : A → bool)
    (g : A → B) (l : list A) :
  Forall (λ a, f a = if bad a then Raise e else Ok (g a)) l →
  mapM f l = if existsb bad l then Raise e else Ok (g <$> l).
Proof.
  intros H. rewrite <-(list_fmap_id l) at 1. by apply (mapM_cases f id).
Qed.

Lemma bind_concat {A B} (f : A → list B) (l : list A) :
  l ≫= f = concat (f <$> l).
Proof.
  induction l as [|a l IH]; [done|].
  cbn [mbind list_bind fmap list_fmap concat]. by rewrite IH.
Qed.

Lemma existsb_bind {A B} (p : B → bool) (f : A → list B) (l : list A) :
  existsb p (l ≫= f) = existsb (λ a, existsb p (f a)) l.
Proof.
  induction l as [|a l IH]; [done|].
  cbn [mbind list_bind existsb]. by rewrite existsb_app, IH.
Qed.

Lemma bind_bind {A B C} (f : A → list B) (g : B → list C) (l : list A) :
  (l ≫= f) ≫= g = l ≫= λ a, f a ≫= g.
Proof.
  induction l as [|a l IH]; [done|].
  cbn [mbind list_bind]. by rewrite bind_app, IH.
Qed.

Lemma existsb_ext_Forall {A} (p q : A → bool) (l : list A) :
  Forall (λ a, p a = q a) l → existsb p l = existsb q l.
Proof. induction 1 as [|a l Ha _ IH]; [done|]. simpl. by rewrite Ha, IH. Qed.

Lemma bind_ext_Forall {A B} (f g : A → list B) (l : list A) :
  Forall (λ a, f a = g a) l → l ≫= f = l ≫= g.
Proof.
  induction 1 as [|a l Ha _ IH]; [done|].
  cbn [mbind list_bind]. by rewrite Ha, IH.
Qed.

(** *** The policy *)

Lemma parse_allowed_tags_total (allowed_tags : str) :
  parse_allowed_tags allowed_tags = Ok (policy_of allowed_tags).
Proof.
  unfold parse_allowed_tags, policy_of.
  rewrite (mapM_total _ (λ tag, (default [] (head tag), drop 1 tag))); [done|].
  apply Forall_fmap, Forall_forall. intros tag _. simpl.
  by destruct (split_char_nonempty ":" tag) as (w & ws & ->).
Qed.

Lemma dict_lookup_snoc (pairs : list (str * list str)) k v k' :
  dict (pairs ++ [(k, v)]) !! k'
  = if decide (k = k') then Some v else dict pairs !! k'.
Proof. unfold dict. rewrite foldl_snoc. simpl. apply lookup_insert. Qed.

(** A key of the policy is the first part of a token of the policy string,
    and its allowed attributes are the other parts of that token. *)
Lemma dict_lookup_Some (pairs : list (str * list str)) k v :
  dict pairs !! k = Some v → (k, v) ∈ pairs.
Proof.
  induction pairs as [|[k0 v0] pairs IH] using rev_ind; [done|].
  rewrite dict_lookup_snoc. case_decide as Hk.
  - intros [= ->]. subst. apply elem_of_app. right. by left.
  - intros ?. apply elem_of_app. left. by apply IH.
Qed.

Lemma dict_lookup_None (pairs : list (str * list str)) k :
  dict pairs !! k = None ↔ k ∉ pairs.*1.
Proof.
  induction pairs as [|[k0 v0] pairs IH] using rev_ind.
  - split; [intros _; apply not_elem_of_nil|done].
  - rewrite dict_lookup_snoc, fmap_app, not_elem_of_app. simpl.
    case_decide as Hk.
    + subst. split; [done|]. intros [_ []%not_elem_of_cons]. done.
    + rewrite IH. split; [intros ?; split; [done|]|by intros []].
      apply not_elem_of_cons. split; [done|apply not_elem_of_nil].
Qed.

Lemma policy_of_lookup_Some (allowed_tags : str) name names :
  policy_of allowed_tags !! name = Some names →
  ∃ tag, tag ∈ split allowed_tags ∧ split_char ":" tag = name :: names.
Proof.
  intros Hin%dict_lookup_Some.
  apply list_elem_of_fmap in Hin as (parts & Heq & Hin).
  apply list_elem_of_fmap in Hin as (tag & -> & Htag).
  exists tag. split; [done|]. injection Heq as -> ->.
  by destruct (split_char_nonempty ":" tag) as (w & ws & ->).
Qed.

Lemma policy_of_lookup_None (allowed_tags : str) name :
  policy_of allowed_tags !! name = None ↔
  ∀ tag, tag ∈ split allowed_tags → head (split_char ":" tag) ≠ Some name.
Proof.
  unfold policy_of. rewrite dict_lookup_None, <-!list_fmap_compose.
  rewrite list_elem_of_fmap. split.
  - intros Hno tag Htag Hhead. apply Hno. exists tag. split; [|done].
    simpl. by rewrite Hhead.
  - intros Hno (tag & Hname & Htag). apply (Hno tag Htag).
    simpl in Hname.
    destruct (split_char_nonempty ":" tag) as (w & ws & E).
    rewrite E in Hname |- *. simpl in *. by subst.
Qed.

(** *** The loop over the tags *)

(** The loop over the attributes goes over the names: a name that does not
    have two characters stops it with [ValueError]. *)
Lemma keep_attrs_cases policy name names keys :
  policy !! name = Some names →
  keep_attrs policy name keys
  = if existsb (λ key, negb (length key =? 2)%nat) keys
    then Raise ValueError else Ok (kept names keys).
Proof.
  intros Hname. unfold kept.
  induction keys as [|key keys IH]; [done|].
  cbn [keep_attrs existsb mbind list_bind].
  destruct key as [|a [|b [|c key]]]; try done.
  cbn [unpack_key mbind result_bind length Nat.eqb negb orb].
  unfold dict_getitem at 1. rewrite Hname. cbn [mbind result_bind].
  rewrite IH. destruct (existsb _ keys); [done|].
  cbn [mbind result_bind]. by case_bool_decide.
Qed.

(** The loop over the tags raises [ValueError] at the first tag that is a
    key of the policy and has an attribute whose name is not of two
    characters; otherwise it leaves the tree [marked]. *)
Lemma filter_tags_cases policy n :
  filter_tags policy n
  = if unpack_fails policy n then Raise ValueError else Ok (marked policy n).
Proof.
  induction n as [text|text|prefix text suffix|name items contents IH]
    using node_ind'; [done|done|done|].
  cbn [filter_tags unpack_fails marked].
  rewrite (mapM_cases_id _ ValueError (unpack_fails policy) (marked policy))
    by done.
  destruct (policy !! name) as [names|] eqn:Hname.
  - rewrite bool_decide_eq_false_2, bool_decide_eq_true_2 by done.
    rewrite (keep_attrs_cases _ _ names) by done.
    destruct (existsb _ items.*1); [done|].
    cbn [mbind result_bind andb orb].
    by destruct (existsb (unpack_fails policy) contents).
  - rewrite bool_decide_eq_true_2, bool_decide_eq_false_2 by naive_solver.
    cbn [mbind result_bind andb orb].
    by destruct (existsb (unpack_fails policy) contents).
Qed.

Lemma filter_tags_list_cases policy (l : list (node (list (str * attr_value)))) :
  mapM (filter_tags policy) l
  = if existsb (unpack_fails policy) l then Raise ValueError
    else Ok (marked policy <$> l).
Proof.
  apply mapM_cases_id, Forall_forall.
  intros n _. apply filter_tags_cases.
Qed.

(** *** Printing *)

Section Decode.
Variable tag_markup : str → list (str * attr_value) → str → str.

(** Printing the tree that the loop leaves raises [AttributeError] at the
    first tag that is a key of the policy; a tree without such a tag prints
    as its strings. *)
Lemma decode_cases policy cdata n :
  decode tag_markup cdata (marked policy n)
  = if names_key policy n then Raise AttributeError
    else Ok (printed cdata n).
Proof.
  revert cdata.
  induction n as [text|text|prefix text suffix|name items contents IH]
    using node_ind'; intros cdata; [done|done|done|].
  cbn [decode marked names_key printed].
  destruct (policy !! name) as [names|] eqn:Hname.
  - by rewrite bool_decide_eq_true_2.
  - rewrite bool_decide_eq_false_2 by naive_solver.
    cbn [tag_attrs hidden orb].
    rewrite (mapM_cases _ (marked policy) AttributeError (names_key policy)
               (printed (cdata_containing name))).
    + destruct (existsb (names_key policy) contents); [done|].
      cbn [mbind result_bind]. by rewrite bind_concat.
    + eapply Forall_impl; [exact IH|]. intros a Ha. apply Ha.
Qed.

Lemma renderContents_cases policy (l : list (node (list (str * attr_value)))) :
  renderContents tag_markup (marked policy <$> l)
  = if existsb (names_key policy) l then Raise AttributeError
    else Ok (l ≫= printed false).
Proof.
  unfold renderContents.
  rewrite (mapM_cases _ (marked policy) AttributeError (names_key policy)
             (printed false)).
  - destruct (existsb (names_key policy) l); [done|].
    cbn [mbind result_bind]. by rewrite bind_concat.
  - apply Forall_forall. intros n _. apply decode_cases.
Qed.

End Decode.

(** *** Comments *)

Lemma names_key_extract_comments {A} policy (n : node A) :
  existsb (names_key policy) (extract_comments n) = names_key policy n.
Proof.
  induction n as [text|text|prefix text suffix|name held contents IH]
    using node_ind'; [done|done|done|].
  cbn [extract_comments existsb names_key]. rewrite orb_false_r. f_equal.
  rewrite existsb_bind. by apply existsb_ext_Forall.
Qed.

Lemma unpack_fails_extract_comments policy n :
  existsb (unpack_fails policy) (extract_comments n) = unpack_fails policy n.
Proof.
  induction n as [text|text|prefix text suffix|name held contents IH]
    using node_ind'; [done|done|done|].
  cbn [extract_comments existsb unpack_fails]. rewrite orb_false_r. f_equal.
  rewrite existsb_bind. by apply existsb_ext_Forall.
Qed.

(** A tree without its comments prints as the strings of the tree that are
    not comments. *)
Lemma printed_extract_comments {A} cdata (n : node A) :
  extract_comments n ≫= printed cdata = text_of cdata n.
Proof.
  revert cdata.
  induction n as [text|text|prefix text suffix|name held contents IH]
    using node_ind'; intros cdata.
  - cbn. by rewrite app_nil_r.
  - done.
  - cbn. by rewrite app_nil_r.
  - cbn [extract_comments mbind list_bind printed text_of].
    rewrite app_nil_r, bind_bind. apply bind_ext_Forall.
    eapply Forall_impl; [exact IH|]. intros a Ha. apply Ha.
Qed.

End SoupFacts.

(** *** Tags inside the tree *)

Section Occurs.
Implicit Types (policy : gmap str (list str)).

Lemma existsb_elem_of {A} (p : A → bool) (x : A) (l : list A) :
  x ∈ l → p x = true → existsb p l = true.
Proof.
  intros Hin Hp. apply existsb_exists. exists x.
  split; [by apply list_elem_of_In|done].
Qed.

Lemma names_key_occurs {A} policy (x : node A) (l : list (node A)) :
  occurs x l → names_key policy x = true →
  existsb (names_key policy) l = true.
Proof.
  intros Hocc Hx. induction Hocc as [l Hin|name held contents l Hin _ IH].
  - by apply (existsb_elem_of _ x).
  - apply (existsb_elem_of _ (Tag name held contents)); [done|].
    cbn [names_key]. rewrite IH. apply orb_true_r.
Qed.

Lemma unpack_fails_occurs policy x l :
  occurs x l → unpack_fails policy x = true →
  existsb (unpack_fails policy) l = true.
Proof.
  intros Hocc Hx. induction Hocc as [l Hin|name held contents l Hin _ IH].
  - by apply (existsb_elem_of _ x).
  - apply (existsb_elem_of _ (Tag name held contents)); [done|].
    cbn [unpack_fails]. rewrite IH. apply orb_true_r.
Qed.

(** A name that fails to unpack is at a tag that is a key. *)
Lemma unpack_fails_names_key policy n :
  unpack_fails policy n = true → names_key policy n = true.
Proof.
  induction n as [text|text|prefix text suffix|name items contents IH]
    using node_ind'; [done|done|done|].
  cbn [unpack_fails names_key].
  intros [[H _]%andb_true_iff|H]%orb_true_iff.
  - by rewrite H.
  - apply orb_true_iff. right.
    apply existsb_exists in H as (x & Hin & Hx). apply existsb_exists.
    exists x. split; [done|].
    rewrite Forall_forall in IH. apply IH; [by apply list_elem_of_In|done].
Qed.

Lemma unpack_fails_names_key_list policy
    (l : list (node (list (str * attr_value)))) :
  existsb (unpack_fails policy) l = true →
  existsb (names_key policy) l = true.
Proof.
  intros (x & Hin & Hx)%existsb_exists. apply existsb_exists.
  exists x. split; [done|]. by apply unpack_fails_names_key.
Qed.

(** The strings below a tag are printed where the tag is, one after the
    other. *)
Lemma text_of_occurs {A} (name : str) (held : A) contents
    (l : list (node A)) :
  occurs (Tag name held contents) l →
  ∀ cdata, ∃ before after,
    l ≫= text_of cdata
    = before ++ (contents ≫= text_of (cdata_containing name)) ++ after.
Proof.
  induction 1 as [l Hin|name' held' contents' l Hin _ IH]; intros cdata.
  - apply list_elem_of_split in Hin as (l1 & l2 & ->).
    exists (l1 ≫= text_of cdata), (l2 ≫= text_of cdata).
    by rewrite bind_app, bind_cons.
  - apply list_elem_of_split in Hin as (l1 & l2 & ->).
    destruct (IH (cdata_containing name')) as (before & after & E).
    exists ((l1 ≫= text_of cdata) ++ before),
      (after ++ (l2 ≫= text_of cdata)).
    rewrite bind_app, bind_cons. cbn [text_of]. rewrite E.
    by rewrite <-!app_assoc.
Qed.

(** With a policy that has no key, no tag is a key. *)
Lemma names_key_empty {A} policy (n : node A) :
  (∀ name, policy !! name = None) → names_key policy n = false.
Proof.
  intros Hnone.
  induction n as [text|text|prefix text suffix|name items contents IH]
    using node_ind'; [done|done|done|].
  cbn [names_key]. rewrite bool_decide_eq_false_2 by (rewrite Hnone; naive_solver).
  cbn [orb]. apply not_true_is_false.
  intros (x & Hin & Hx)%existsb_exists.
  rewrite Forall_forall in IH.
  rewrite IH in Hx; [done|by apply list_elem_of_In].
Qed.

(** *** Escaping *)

Lemma escape_no_angle (text : str) (c : ascii) :
  c ∈ escape text → c ≠ "<"%char ∧ c ≠ ">"%char.
Proof.
  unfold escape. intros (x & Hc & _)%list_elem_of_bind.
  repeat case_decide; subst;
    repeat (apply elem_of_cons in Hc as [->|Hc]; [done|]);
    by apply elem_of_nil in Hc.
Qed.

Lemma text_of_no_angle {A} cdata (n : node A) (c : ascii) :
  escaped_only cdata n = true → c ∈ text_of cdata n →
  c ≠ "<"%char ∧ c ≠ ">"%char.
Proof.
  revert cdata.
  induction n as [text|text|prefix text suffix|name items contents IH]
    using node_ind'; intros cdata.
  - cbn. destruct cdata; [done|]. intros _. apply escape_no_angle.
  - cbn. by intros _ ?%elem_of_nil.
  - done.
  - cbn [escaped_only text_of].
    intros Hall (x & Hc & Hx)%list_elem_of_bind.
    rewrite Forall_forall in IH. apply (IH x Hx (cdata_containing name));
      [|done].
    rewrite forallb_forall in Hall. by apply Hall, list_elem_of_In.
Qed.

End Occurs.

Section SanitizeFacts.
Context (ugettext : str → str) (linenumbers : str → bool → str)
  (BeautifulSoup : str → parsed)
  (tag_markup : str → list (str * attr_value) → str → str).
Implicit Types (policy : gmap str (list str)).

(** What [sanitize] does with a fragment that parses: it raises
    [ValueError] in the loop over the tags, [AttributeError] when it prints,
    or it returns the strings of the tree. *)
Lemma sanitize_cases value allowed_tags soup :
  BeautifulSoup value = Soup soup →
  sanitize ugettext linenumbers BeautifulSoup tag_markup value allowed_tags
  = if existsb (unpack_fails (policy_of allowed_tags)) soup
    then Raise ValueError
    else if existsb (names_key (policy_of allowed_tags)) soup
    then Raise AttributeError
    else Ok (soup ≫= text_of false).
Proof.
  intros Hsoup. unfold sanitize.
  rewrite parse_allowed_tags_total. cbn [mbind result_bind].
  rewrite Hsoup, filter_tags_list_cases.
  rewrite existsb_bind.
  rewrite (existsb_ext_Forall _ (unpack_fails (policy_of allowed_tags)))
    by (apply Forall_forall; intros n _; apply unpack_fails_extract_comments).
  destruct (existsb (unpack_fails _) soup); [done|].
  cbn [mbind result_bind]. rewrite renderContents_cases.
  rewrite existsb_bind.
  rewrite (existsb_ext_Forall _ (names_key (policy_of allowed_tags)))
    by (apply Forall_forall; intros n _; apply names_key_extract_comments).
  destruct (existsb (names_key _) soup); [done|].
  f_equal. rewrite bind_bind. apply bind_ext_Forall, Forall_forall.
  intros n _. apply printed_extract_comments.
Qed.

(** What [sanitize] returns for a fragment on which the parser raises. *)
Lemma sanitize_parser_raises value allowed_tags message :
  BeautifulSoup value = ParserRaises message →
  sanitize ugettext linenumbers BeautifulSoup tag_markup value allowed_tags
  = Ok (diagnostic ugettext linenumbers message value).
Proof.
  intros Hraise. unfold sanitize.
  rewrite parse_allowed_tags_total. cbn [mbind result_bind].
  by rewrite Hraise.
Qed.

(** [sanitize] raises when some tag of the fragment is a key of the
    policy. *)
Lemma sanitize_raises value allowed_tags soup :
  BeautifulSoup value = Soup soup →
  existsb (names_key (policy_of allowed_tags)) soup = true →
  sanitize ugettext linenumbers BeautifulSoup tag_markup value allowed_tags
  = Raise ValueError
  ∨ sanitize ugettext linenumbers BeautifulSoup tag_markup value allowed_tags
    = Raise AttributeError.
Proof.
  intros Hsoup Hkey. rewrite (sanitize_cases _ _ soup Hsoup), Hkey.
  destruct (existsb (unpack_fails _) soup); [by left|by right].
Qed.

(** [sanitize] returns the strings of the tree when no tag of the fragment
    is a key of the policy. *)
Lemma sanitize_returns value allowed_tags soup :
  BeautifulSoup value = Soup soup →
  existsb (names_key (policy_of allowed_tags)) soup = false →
  sanitize ugettext linenumbers BeautifulSoup tag_markup value allowed_tags
  = Ok (soup ≫= text_of false).
Proof.
  intros Hsoup Hkey. rewrite (sanitize_cases _ _ soup Hsoup), Hkey.
  destruct (existsb (unpack_fails _) soup) eqn:E; [|done].
  apply unpack_fails_names_key_list in E. congruence.
Qed.

End SanitizeFacts.

(** ** [sanitize] *)

Section SanitizeTheorems.
Context (ugettext : str → str) (linenumbers : str → bool → str)
  (BeautifulSoup : str → parsed)
  (tag_markup : str → list (str * attr_value) → str → str).

(** C1: [sanitize] does not always return. When the parser raises, it
    returns the diagnostic fragment: the message, the translated hint about
    [href] and [src] and the value with line numbers. When the parser
    returns a tree of which some tag is a key of the policy, [sanitize]
    raises [ValueError] or [AttributeError]; it returns, the strings of the
    tree, only when no tag of the tree is a key of the policy. *)
Theorem sanitize_raises_at_allowed_tag (value allowed_tags : str) :
  (∀ message, BeautifulSoup value = ParserRaises message →
     sanitize ugettext linenumbers BeautifulSoup tag_markup value
       allowed_tags
     = Ok (diagnostic ugettext linenumbers message value))
  ∧ (∀ soup, BeautifulSoup value = Soup soup →
       if existsb (names_key (policy_of allowed_tags)) soup
       then sanitize ugettext linenumbers BeautifulSoup tag_markup value
           allowed_tags = Raise ValueError
            ∨ sanitize ugettext linenumbers BeautifulSoup tag_markup value
                allowed_tags = Raise AttributeError
       else sanitize ugettext linenumbers BeautifulSoup tag_markup value
           allowed_tags = Ok (soup ≫= text_of false)).
Proof.
  split.
  - intros message. apply sanitize_parser_raises.
  - intros soup Hsoup.
    destruct (existsb (names_key _) soup) eqn:Hkey.
    + by apply (sanitize_raises _ _ _ _ _ _ soup).
    + by apply sanitize_returns.
Qed.

(** C2: at a tag whose name is a key of the policy, the loop over
    [tag.attrs] goes over the names of the attributes and unpacks each into
    two variables, so it raises [ValueError] when a name is not of two
    characters; otherwise the tag gets the list of the pairs of characters
    of the names whose first character is in the allowed set, and printing
    the tag raises [AttributeError]. No attribute is printed: [sanitize]
    raises for every fragment with such a tag. *)
Theorem sanitize_allowed_attributes (value allowed_tags : str)
    (soup : list (node (list (str * attr_value))))
    (name : str) (names : list str) (items : list (str * attr_value))
    (contents : list (node (list (str * attr_value)))) :
  BeautifulSoup value = Soup soup →
  occurs (Tag name items contents) soup →
  policy_of allowed_tags !! name = Some names →
  keep_attrs (policy_of allowed_tags) name items.*1
  = (if existsb (λ key, negb (length key =? 2)%nat) items.*1
     then Raise ValueError else Ok (kept names items.*1))
  ∧ (existsb (λ key, negb (length key =? 2)%nat) items.*1 = true →
     sanitize ugettext linenumbers BeautifulSoup tag_markup value
       allowed_tags = Raise ValueError)
  ∧ (sanitize ugettext linenumbers BeautifulSoup tag_markup value
      allowed_tags = Raise ValueError
     ∨ sanitize ugettext linenumbers BeautifulSoup tag_markup value
         allowed_tags = Raise AttributeError).
Proof.
  intros Hsoup Hocc Hname. split; [by apply keep_attrs_cases|]. split.
  - intros Hbad. rewrite (sanitize_cases _ _ _ _ _ _ soup Hsoup).
    rewrite (unpack_fails_occurs _ _ _ Hocc); [done|].
    cbn [unpack_fails]. rewrite Hbad.
    by rewrite bool_decide_eq_true_2 by (rewrite Hname; done).
  - apply (sanitize_raises _ _ _ _ _ _ soup Hsoup).
    apply (names_key_occurs _ _ _ Hocc). cbn [names_key].
    by rewrite bool_decide_eq_true_2 by (rewrite Hname; done).
Qed.

(** C4: a tag whose name is not a key of the policy is hidden, and its
    contents are printed in its place. When the contents hold a tag that is a
    key of the policy, [sanitize] raises; when no tag of the fragment is a
    key, [sanitize] returns the strings of the fragment, those of the
    contents among them, and no markup of a tag. *)
Theorem sanitize_unwraps_disallowed (value allowed_tags : str)
    (soup : list (node (list (str * attr_value))))
    (name : str) (items : list (str * attr_value))
    (contents : list (node (list (str * attr_value)))) :
  BeautifulSoup value = Soup soup →
  occurs (Tag name items contents) soup →
  policy_of allowed_tags !! name = None →
  (existsb (names_key (policy_of allowed_tags)) contents = true →
   sanitize ugettext linenumbers BeautifulSoup tag_markup value
     allowed_tags = Raise ValueError
   ∨ sanitize ugettext linenumbers BeautifulSoup tag_markup value
       allowed_tags = Raise AttributeError)
  ∧ (existsb (names_key (policy_of allowed_tags)) soup = false →
     ∃ before after,
       sanitize ugettext linenumbers BeautifulSoup tag_markup value
         allowed_tags
       = Ok (before ++ (contents ≫= text_of (cdata_containing name))
             ++ after)
       ∧ before ++ (contents ≫= text_of (cdata_containing name)) ++ after
         = soup ≫= text_of false).
Proof.
  intros Hsoup Hocc Hname. split.
  - intros Hkey. apply (sanitize_raises _ _ _ _ _ _ soup Hsoup).
    apply (names_key_occurs _ _ _ Hocc). cbn [names_key].
    rewrite Hkey. apply orb_true_r.
  - intros Hkey.
    destruct (text_of_occurs _ _ _ _ Hocc false) as (before & after & E).
    exists before, after. rewrite <-E. split; [|done].
    by apply sanitize_returns.
Qed.

(** C5: for a fragment of which no tag is a key of the policy, [sanitize]
    returns what the tree without its comment nodes prints, which is the
    strings of the tree that are not comments, one after the other: a
    comment leaves nothing. The result has no [<] and no [>], so no comment
    marker, when the tree has no string directly inside [script] or [style]
    and no string that is printed between delimiters. *)
Theorem sanitize_removes_comments (value allowed_tags : str)
    (soup : list (node (list (str * attr_value)))) :
  BeautifulSoup value = Soup soup →
  existsb (names_key (policy_of allowed_tags)) soup = false →
  sanitize ugettext linenumbers BeautifulSoup tag_markup value
    allowed_tags = Ok ((soup ≫= extract_comments) ≫= printed false)
  ∧ (soup ≫= extract_comments) ≫= printed false = soup ≫= text_of false
  ∧ (forallb (escaped_only false) soup = true →
     ∀ c, c ∈ soup ≫= text_of false → c ≠ "<"%char ∧ c ≠ ">"%char).
Proof.
  intros Hsoup Hkey.
  assert ((soup ≫= extract_comments) ≫= printed false
          = soup ≫= text_of false) as E.
  { rewrite bind_bind. apply bind_ext_Forall, Forall_forall.
    intros n _. apply printed_extract_comments. }
  split; [|split; [done|]].
  - rewrite E. by apply sanitize_returns.
  - intros Hall c (n & Hc & Hn)%list_elem_of_bind.
    apply (text_of_no_angle false n); [|done].
    rewrite forallb_forall in Hall. by apply Hall, list_elem_of_In.
Qed.

End SanitizeTheorems.

(** In the examples the parser is given by the tree it builds for the
    fragment at hand; [ugettext] and [linenumbers] return their argument. *)

Lemma sanitize_raises_at_allowed_tag_witness :
  sanitize id (λ s _, s)
    (λ _, Soup [Tag (py "b") [] [NavigableString (py "x")]])
    (λ _ _ inner, inner) (py "<b>x</b>") (py "b")
  = Raise ValueError
  ∨ sanitize id (λ s _, s)
      (λ _, Soup [Tag (py "b") [] [NavigableString (py "x")]])
      (λ _ _ inner, inner) (py "<b>x</b>") (py "b")
    = Raise AttributeError.
Proof.
  exact (proj2 (sanitize_raises_at_allowed_tag id (λ s _, s)
                  (λ _, Soup [Tag (py "b") [] [NavigableString (py "x")]])
                  (λ _ _ inner, inner) (py "<b>x</b>") (py "b"))
           _ eq_refl).
Defined.

Lemma sanitize_allowed_attributes_witness :
  sanitize id (λ s _, s)
    (λ _, Soup [Tag (py "a") [(py "href", Single (py "x"))]
                  [NavigableString (py "t")]])
    (λ _ _ inner, inner) (py "<a href=x>t</a>") (py "a:href")
  = Raise ValueError.
Proof.
  refine (proj1 (proj2 (sanitize_allowed_attributes id (λ s _, s)
    (λ _, Soup [Tag (py "a") [(py "href", Single (py "x"))]
                  [NavigableString (py "t")]])
    (λ _ _ inner, inner) (py "<a href=x>t</a>") (py "a:href")
    _ (py "a") [py "href"] [(py "href", Single (py "x"))]
    [NavigableString (py "t")] eq_refl _ _)) _).
  - apply occurs_here. by left.
  - by vm_compute.
  - reflexivity.
Defined.

Lemma sanitize_unwraps_disallowed_witness :
  (sanitize id (λ s _, s)
     (λ _, Soup [Tag (py "div") []
                   [Tag (py "b") [] [NavigableString (py "t")]]])
     (λ _ _ inner, inner) (py "<div><b>t</b></div>") (py "b")
   = Raise ValueError
   ∨ sanitize id (λ s _, s)
       (λ _, Soup [Tag (py "div") []
                     [Tag (py "b") [] [NavigableString (py "t")]]])
       (λ _ _ inner, inner) (py "<div><b>t</b></div>") (py "b")
     = Raise AttributeError)
  ∧ ∃ before after,
      sanitize id (λ s _, s)
        (λ _, Soup [NavigableString (py "x");
                    Tag (py "div") [] [NavigableString (py "a & b")]])
        (λ _ _ inner, inner) (py "x<div>a & b</div>") (py "b")
      = Ok (before ++ py "a &amp; b" ++ after).
Proof.
  split.
  - refine (proj1 (sanitize_unwraps_disallowed id (λ s _, s)
      (λ _, Soup [Tag (py "div") []
                    [Tag (py "b") [] [NavigableString (py "t")]]])
      (λ _ _ inner, inner) (py "<div><b>t</b></div>") (py "b")
      _ (py "div") [] [Tag (py "b") [] [NavigableString (py "t")]]
      eq_refl _ _) _).
    + apply occurs_here. by left.
    + by vm_compute.
    + by vm_compute.
  - destruct (proj2 (sanitize_unwraps_disallowed id (λ s _, s)
      (λ _, Soup [NavigableString (py "x");
                  Tag (py "div") [] [NavigableString (py "a & b")]])
      (λ _ _ inner, inner) (py "x<div>a & b</div>") (py "b")
      [NavigableString (py "x");
       Tag (py "div") [] [NavigableString (py "a & b")]]
      (py "div") [] [NavigableString (py "a & b")]
      eq_refl
      (occurs_here _ _ (list_elem_of_further _ _ _ (list_elem_of_here _ _)))
      eq_refl) eq_refl) as (before & after & H & _).
    exists before, after. exact H.
Defined.

Lemma sanitize_removes_comments_witness :
  sanitize id (λ s _, s)
    (λ _, Soup [Comment (py " c ");
                Tag (py "div") []
                  [NavigableString (py "a < b"); Comment (py "d")]])
    (λ _ _ inner, inner) (py "<!-- c --><div>a < b<!--d--></div>") (py "b")
  = Ok (py "a &lt; b").
Proof.
  refine (proj1 (sanitize_removes_comments id (λ s _, s)
    (λ _, Soup [Comment (py " c ");
                Tag (py "div") []
                  [NavigableString (py "a < b"); Comment (py "d")]])
    (λ _ _ inner, inner) (py "<!-- c --><div>a < b<!--d--></div>") (py "b")
    _ eq_refl _)).
  by vm_compute.
Defined.

(** A string directly inside [script] is printed as it is: the comment is
    removed, and the markers in the script are returned. *)
Lemma sanitize_prints_comment_markers :
  sanitize id (λ s _, s)
    (λ _, Soup [Comment (py "c");
                Tag (py "script") [] [NavigableString (py "<!--x-->")]])
    (λ _ _ inner, inner) (py "<!--c--><script><!--x--></script>") (py "b")
  = Ok (py "<!--x-->").
Proof. by vm_compute. Qed.

(** What [sanitize] does with some fragments. *)
Lemma sanitize_examples :
  sanitize id (λ s _, s)
    (λ _, Soup [Tag (py "b") [] [NavigableString (py "x")]])
    (λ _ _ inner, inner) (py "<b>x</b>") (py "b")
  = Raise AttributeError
  ∧ sanitize id (λ s _, s)
      (λ _, Soup [Tag (py "div") []
                    [Tag (py "b") [] [NavigableString (py "t")]]])
      (λ _ _ inner, inner) (py "<div><b>t</b></div>") (py "b")
    = Raise AttributeError
  ∧ sanitize id (λ s _, s)
      (λ _, Soup [Tag (py "a") [(py "id", Single (py "x"))]
                    [NavigableString (py "t")]])
      (λ _ _ inner, inner) (py "<a id=x>t</a>") (py "a:i")
    = Raise AttributeError
  ∧ sanitize id (λ s _, s)
      (λ _, Soup [Tag (py "div") [(py "class", Multiple [py "x"])]
                    [NavigableString (py "a & b"); Comment (py "c");
                     Tag (py "i") [] [NavigableString (py "<t>")]]])
      (λ _ _ inner, inner) (py "<div class=x>a & b<!--c--><i>&lt;t&gt;</i></div>")
      (py "b u")
    = Ok (py "a &amp; b&lt;t&gt;")
  ∧ sanitize id (λ s _, s) (λ _, ParserRaises (py "bad")) (λ _ _ inner, inner)
      (py "<a") (py "b")
    = Ok (py "<br><span class=" ++ [dquote] ++ py "warning" ++ [dquote]
          ++ py ">bad :<br>" ++ syntax_error_hint
          ++ py "</span><br><pre class=" ++ [dquote] ++ py "sanitize"
          ++ [dquote] ++ py "><a</pre>").
Proof. repeat split; by vm_compute. Qed.

(** ** [basename] and [dirname] *)

Section PathFacts.
Implicit Types (p s : str).

Lemma rpartition_slash_app p :
  p = (rpartition_slash p).1 ++ (rpartition_slash p).2.
Proof.
  induction p as [|c p IH]; [done|]. cbn [rpartition_slash].
  destruct (rpartition_slash p) as [[|h head] tail]; simpl in *.
  - case_decide; simpl; by rewrite IH.
  - by rewrite IH.
Qed.

Lemma rpartition_slash_tail p : "/"%char ∉ (rpartition_slash p).2.
Proof.
  induction p as [|c p IH]; [apply not_elem_of_nil|].
  cbn [rpartition_slash].
  destruct (rpartition_slash p) as [[|h head] tail]; simpl in *; [|done].
  case_decide; simpl; [done|].
  apply not_elem_of_cons. split; [congruence|done].
Qed.

Lemma rpartition_slash_head p :
  (rpartition_slash p).1 = []
  ∨ last (rpartition_slash p).1 = Some "/"%char.
Proof.
  induction p as [|c p IH]; [by left|]. cbn [rpartition_slash].
  destruct (rpartition_slash p) as [[|h head] tail]; cbn [fst snd] in *.
  - case_decide; cbn [fst]; [subst; by right|by left].
  - right. destruct IH as [|IH]; [done|]. by rewrite last_cons_cons.
Qed.

Lemma rpartition_slash_no_slash p :
  "/"%char ∉ p → rpartition_slash p = ([], p).
Proof.
  induction p as [|c p IH]; [done|].
  intros [Hc Hp]%not_elem_of_cons. cbn [rpartition_slash].
  rewrite IH by done. by rewrite decide_False by congruence.
Qed.

Lemma rstrip_slash_app s :
  ∃ slashes, Forall (λ c, c = "/"%char) slashes
             ∧ s = rstrip_slash s ++ slashes.
Proof.
  induction s as [|c s (slashes & Hall & IH)]; [by exists []|].
  cbn [rstrip_slash]. destruct (rstrip_slash s) as [|r rs].
  - case_decide.
    + exists (c :: slashes). split; [by constructor|]. simpl in *. congruence.
    + exists slashes. split; [done|]. simpl in *. congruence.
  - exists slashes. split; [done|]. simpl in *. congruence.
Qed.

Lemma rstrip_slash_last s : last (rstrip_slash s) ≠ Some "/"%char.
Proof.
  induction s as [|c s IH]; [done|]. cbn [rstrip_slash].
  destruct (rstrip_slash s) as [|r rs].
  - case_decide; [done|]. simpl. congruence.
  - by rewrite last_cons_cons.
Qed.

Lemma rstrip_slash_nonempty s : all_slashes s = false → rstrip_slash s ≠ [].
Proof.
  unfold all_slashes. induction s as [|c s IH]; [done|].
  cbn [forallb rstrip_slash]. intros Hs.
  destruct (rstrip_slash s) as [|r rs]; [|done].
  case_decide as Hc; [|done]. subst.
  rewrite bool_decide_eq_true_2 in Hs by done. by apply IH.
Qed.

End PathFacts.

(** X1: [basename] is the part of the path after its last slash: it holds
    no slash, and what comes before it in the path is empty or ends with a
    slash. *)
Theorem basename_after_last_slash (s : str) :
  ("/"%char ∉ basename s)
  ∧ (∃ head, s = head ++ basename s
             ∧ (head = [] ∨ last head = Some "/"%char)).
Proof.
  unfold basename, path_basename. split; [apply rpartition_slash_tail|].
  exists (rpartition_slash s).1.
  split; [apply rpartition_slash_app|apply rpartition_slash_head].
Qed.

(** X2: a path is its [dirname], then a run of slashes, then its
    [basename]: the two filters lose nothing of the path but slashes
    between the directory and the name. *)
Theorem dirname_basename_decompose (s : str) :
  ∃ slashes,
    Forall (λ c, c = "/"%char) slashes
    ∧ s = dirname s ++ slashes ++ basename s.
Proof.
  unfold dirname, basename, path_dirname, path_basename.
  pose proof (rpartition_slash_app s) as Hs.
  destruct (rpartition_slash s) as [head tail]. cbn [fst snd] in *.
  destruct head as [|h head]; [by exists []|].
  destruct (all_slashes (h :: head)); [by exists []|].
  destruct (rstrip_slash_app (h :: head)) as (slashes & Hall & Hhead).
  exists slashes. split; [done|]. by rewrite app_assoc, <-Hhead.
Qed.

(** X3: [dirname] is empty exactly for a path without slash, and it ends
    with a slash only when it is made of slashes only (the root). *)
Theorem dirname_trailing_slash (s : str) :
  (dirname s = [] ↔ "/"%char ∉ s)
  ∧ (last (dirname s) = Some "/"%char → all_slashes (dirname s) = true).
Proof.
  unfold dirname, path_dirname. split.
  - split.
    + intros Hd Hin. pose proof (rpartition_slash_app s) as Hs.
      pose proof (rpartition_slash_tail s) as Htail.
      destruct (rpartition_slash s) as [[|h head] tail]; cbn [fst snd] in *.
      * subst. done.
      * destruct (all_slashes (h :: head)) eqn:E; [done|].
        by apply rstrip_slash_nonempty in E.
    + intros Hno. by rewrite rpartition_slash_no_slash.
  - destruct (rpartition_slash s) as [[|h head] tail]; cbn [fst snd];
      [done|].
    destruct (all_slashes (h :: head)) eqn:E; [done|].
    intros Hlast. by apply rstrip_slash_last in Hlast.
Qed.

(** The examples of the two docstrings. *)
Lemma basename_dirname_examples :
  basename (py "/a/b/c/myfile.extension") = py "myfile.extension"
  ∧ dirname (py "/a/b/c/myfile.extension") = py "/a/b/c".
Proof. split; reflexivity. Qed.

(** ** [multiply] on strings *)

Section MultiplyFacts.
Variable maxsize : Z.
Variable available : N.

Lemma concat_replicate_mul {A} (s : list A) (m n : nat) :
  concat (replicate n (concat (replicate m s)))
  = concat (replicate (m * n) s).
Proof.
  induction n as [|n IH]; [by rewrite Nat.mul_0_r|].
  rewrite Nat.mul_succ_r, Nat.add_comm, replicate_add, concat_app.
  simpl. by rewrite IH.
Qed.

Lemma length_concat_replicate {A} (s : list A) (n : nat) :
  length (concat (replicate n s)) = (length s * n)%nat.
Proof.
  induction n as [|k IH]; simpl; [lia|]. rewrite length_app, IH. lia.
Qed.

(** A count that is an index gives the repetition when the length of the
    result is an index and the result fits in memory. *)
Lemma str_mul_returns (s : str) (n : Z) :
  - maxsize - 1 ≤ n ≤ maxsize →
  Z.of_nat (length s) * n ≤ maxsize →
  Z.of_nat (length s) * n ≤ Z.of_N available →
  str_mul maxsize available s n = Ok (concat (replicate (Z.to_nat n) s)).
Proof.
  intros Hn Hmax Hmem. unfold str_mul.
  rewrite (proj2 (Z.ltb_ge _ _)), (proj2 (Z.ltb_ge _ _)) by lia.
  cbn [orb]. destruct (Z.leb_spec n 0) as [H0|H0].
  { by replace (Z.to_nat n) with 0%nat by lia. }
  destruct (Z.eqb_spec n 1) as [->|H1].
  { simpl. by rewrite app_nil_r. }
  rewrite (proj2 (Z.ltb_ge _ _)).
  2:{ apply Z.div_le_lower_bound; lia. }
  by rewrite (proj2 (Z.ltb_ge _ _)) by lia.
Qed.

End MultiplyFacts.


(** X5: repeating a repetition multiplies the counts: [(s * a) * b] is
    [s * (a * b)], a string, for counts that are not negative, when the
    counts and their product are indices and the lengths of [s * a] and of
    the result are indices and fit in memory. *)
Theorem multiply_repeats_compose (maxsize : Z) (available : N) (s : str)
    (a b : Z) :
  0 ≤ a ≤ maxsize → 0 ≤ b ≤ maxsize → a * b ≤ maxsize →
  Z.of_nat (length s) * a ≤ Z.min maxsize (Z.of_N available) →
  Z.of_nat (length s) * a * b ≤ Z.min maxsize (Z.of_N available) →
  multiply maxsize available (Str s) (Int a)
    ≫= (λ v, multiply maxsize available v (Int b))
  = multiply maxsize available (Str s) (Int (a * b))
  ∧ ∃ r, multiply maxsize available (Str s) (Int (a * b)) = Ok (Str r).
Proof.
  intros Ha Hb Hab Hsa Hsab. unfold multiply, py_mul.
  rewrite (str_mul_returns _ _ s a) by lia. cbn [mbind result_bind].
  rewrite (str_mul_returns _ _ s (a * b)) by lia.
  rewrite str_mul_returns.
  - cbn [mbind result_bind]. split; [|by eexists].
    by rewrite concat_replicate_mul, Z2Nat.inj_mul by lia.
  - lia.
  - rewrite length_concat_replicate. lia.
  - rewrite length_concat_replicate. lia.
Qed.

Lemma multiply_repeats_compose_witness :
  multiply (2 ^ 63 - 1) (2 ^ 40) (Str (py "*")) (Int 2)
    ≫= (λ v, multiply (2 ^ 63 - 1) (2 ^ 40) v (Int 4))
  = multiply (2 ^ 63 - 1) (2 ^ 40) (Str (py "*")) (Int (2 * 4))
  ∧ ∃ r, multiply (2 ^ 63 - 1) (2 ^ 40) (Str (py "*")) (Int (2 * 4))
         = Ok (Str r).
Proof. apply multiply_repeats_compose; by vm_compute. Defined.

(** [multiply(50, 1024)] is [51200], and ['*' * 8] is eight stars; an empty
    string times [10 ** 30] raises. *)
Lemma multiply_examples :
  multiply (2 ^ 63 - 1) (2 ^ 40) (Int 50) (Int 1024) = Ok (Int 51200)
  ∧ multiply (2 ^ 63 - 1) (2 ^ 40) (Str (py "*")) (Int 8)
    = Ok (Str (py "********"))
  ∧ multiply (2 ^ 63 - 1) (2 ^ 40) (Str []) (Int (10 ^ 30))
    = Raise OverflowError
  ∧ multiply (2 ^ 63 - 1) (2 ^ 40) (Str (py "ab")) (Int (- 10 ^ 30))
    = Raise OverflowError
  ∧ multiply (2 ^ 63 - 1) (2 ^ 40) (Str (py "ab")) (Int (2 ^ 62))
    = Raise OverflowError
  ∧ multiply (2 ^ 63 - 1) (2 ^ 40) (Str (py "a")) (Int (2 ^ 62))
    = Raise MemoryError.
Proof. repeat split; by vm_compute. Qed.

(** ** [replace], further *)

Lemma str_replace_same (n : nat) (s old : str) :
  (length s ≤ n)%nat → str_replace s old old = s.
Proof.
  unfold str_replace. revert s.
  induction n as [|n IH]; intros s Hlen.
  - destruct s; [by destruct old|simpl in Hlen; lia].
  - destruct s as [|c s]; [by destruct old|]. simpl in Hlen.
    cbn [replace_from]. case_bool_decide as Hpre.
    + destruct old as [|o old]; [simpl; f_equal; apply IH; lia|].
      destruct Hpre as [rest Hrest]. simplify_eq/=.
      rewrite replace_from_skip. f_equal. f_equal. apply IH.
      rewrite length_app in Hlen. lia.
    + f_equal. apply IH. lia.
Qed.

(** X6: with an empty text to look for, [replace] puts the replacement
    before every character and at the end. *)
Theorem replace_empty_search (s : str) (sep : ascii) (rep : str) :
  sep ∉ rep →
  replace s (sep :: sep :: rep) = Ok (rep ++ (s ≫= λ c, c :: rep)).
Proof.
  intros Hrep.
  rewrite (replace_uses_parts s _ [] rep).
  - f_equal. unfold str_replace.
    induction s as [|c s IH]; [by rewrite app_nil_r|].
    cbn [replace_from]. rewrite bool_decide_eq_true_2 by apply prefix_nil.
    by rewrite IH, bind_cons.
  - unfold parts. cbn [split_char]. rewrite !decide_True by done. done.
  - unfold parts. cbn [split_char]. rewrite !decide_True by done.
    by rewrite split_char_no_sep.
Qed.

Lemma replace_empty_search_witness :
  replace (py "ab") (py "//-") = Ok (py "-" ++ (py "ab" ≫= λ c, c :: py "-")).
Proof.
  apply (replace_empty_search (py "ab") "/" (py "-")).
  apply (bool_decide_unpack _). by vm_compute.
Defined.

(** X7: replacing a text by itself changes nothing. *)
Theorem replace_by_itself (s : str) (sep : ascii) (text : str) :
  sep ∉ text →
  replace s (sep :: text ++ sep :: text) = Ok s.
Proof.
  intros Htext. rewrite (replace_uses_parts s _ text text).
  - f_equal. by apply (str_replace_same (length s)).
  - unfold parts. cbn [split_char]. rewrite decide_True by done.
    by rewrite split_char_first_part.
  - unfold parts. cbn [split_char]. rewrite decide_True by done.
    by rewrite split_char_first_part, split_char_no_sep.
Qed.

Lemma replace_by_itself_witness :
  replace (py "hello world") (py "/o/o") = Ok (py "hello world").
Proof.
  apply (replace_by_itself (py "hello world") "/" (py "o")).
  apply (bool_decide_unpack _). by vm_compute.
Defined.

(** ** [resub] *)

Section ResubTheorems.
Context (pattern : Type) (re_compile : str → bool → outcome pattern)
  (regex_sub : pattern → str → str → outcome str).

(** X8: with fewer than three parts [resub] raises [IndexError] and the
    pattern is never compiled; with three parts or more, an exception of
    [re.compile] is the exception of [resub], and so is an exception of
    [regex.sub] when the pattern compiles. *)
Theorem resub_raises (s arg : str) :
  ((length (parts arg) < 3)%nat →
   resub pattern re_compile regex_sub s arg = Raises (Builtin IndexError))
  ∧ (∀ pat rep e,
       parts arg !! 1%nat = Some pat → parts arg !! 2%nat = Some rep →
       re_compile pat (bool_decide (last (parts arg) = Some (py "i")))
       = Raises e →
       resub pattern re_compile regex_sub s arg = Raises e)
  ∧ (∀ pat rep regex e,
       parts arg !! 1%nat = Some pat → parts arg !! 2%nat = Some rep →
       re_compile pat (bool_decide (last (parts arg) = Some (py "i")))
       = Returns regex →
       regex_sub regex rep s = Raises e →
       resub pattern re_compile regex_sub s arg = Raises e).
Proof.
  unfold resub, parts, getitem. destruct arg as [|sep arg].
  { split; [done|]. split; [by intros ???|by intros ????]. }
  cbn [lookup list_lookup mbind outcome_bind of_result].
  split; [|split].
  - destruct (split_char sep (sep :: arg)) as [|p0 [|p1 [|p2 ps]]];
      simpl; intros; first [done | lia].
  - intros pat rep e -> ->. cbn [of_result mbind outcome_bind].
    by intros ->.
  - intros pat rep regex e -> ->. cbn [of_result mbind outcome_bind].
    by intros ->.
Qed.

(** X9: the pattern is compiled with [re.I] exactly when the last part of
    the argument is [i]: after the replacement, as a fourth part, or as the
    replacement itself, when there are three parts only. *)
Theorem resub_ignore_case (s : str) (sep : ascii) (pat rep : str) :
  sep ∉ pat → sep ∉ rep → sep ≠ "i"%char →
  resub pattern re_compile regex_sub s (sep :: pat ++ sep :: rep ++ sep :: py "i")
  = re_compile pat true ≫= (λ regex, regex_sub regex rep s)
  ∧ resub pattern re_compile regex_sub s (sep :: pat ++ sep :: py "i")
    = re_compile pat true ≫= (λ regex, regex_sub regex (py "i") s)
  ∧ (rep ≠ py "i" →
     resub pattern re_compile regex_sub s (sep :: pat ++ sep :: rep)
     = re_compile pat false ≫= (λ regex, regex_sub regex rep s)).
Proof.
  intros Hpat Hrep Hi.
  assert (sep ∉ py "i") as Hi'.
  { intros [->|[]%elem_of_nil]%elem_of_cons. done. }
  unfold resub, getitem.
  cbn [lookup list_lookup mbind outcome_bind of_result split_char].
  rewrite !decide_True by done.
  rewrite !split_char_first_part by done.
  rewrite !split_char_no_sep by done.
  cbn [lookup list_lookup mbind outcome_bind of_result].
  split; [|split].
  - by rewrite bool_decide_eq_true_2.
  - by rewrite bool_decide_eq_true_2.
  - intros Hne. rewrite bool_decide_eq_false_2; [done|].
    intros [= E]. by apply Hne.
Qed.

End ResubTheorems.

Lemma resub_ignore_case_witness :
  resub (str * bool) (λ pat flags, Returns (pat, flags))
    (λ _ rep _, Returns rep) (py "Hello") (py "/h/j/i")
  = Returns (py "h", true) ≫= (λ regex, Returns (py "j")).
Proof.
  assert ("/"%char ∉ py "h") as Hpat
    by (apply (bool_decide_unpack _); by vm_compute).
  assert ("/"%char ∉ py "j") as Hrep
    by (apply (bool_decide_unpack _); by vm_compute).
  assert ("/"%char ≠ "i"%char) as Hi by done.
  exact (proj1 (resub_ignore_case (str * bool)
                  (λ pat flags, Returns (pat, flags))
                  (λ _ rep _, Returns rep)
                  (py "Hello") "/"%char (py "h") (py "j") Hpat Hrep Hi)).
Defined.

(** ** [hash] *)

(** X10: [hash] never raises [VariableDoesNotExist]: when the lookup of
    the attribute raises it, the lookup of [default_index] is the answer,
    and [None] when that raises it too. An exception of another kind from
    the first lookup is raised without the second lookup. *)
Theorem hash_falls_back (object resolved : Type)
  (resolve : str → object → outcome resolved) (obj : object) (attr : str) :
  hash object resolved resolve obj attr ≠ Raises VariableDoesNotExist
  ∧ (∀ v, resolve (py "object." ++ attr) obj = Returns v →
          hash object resolved resolve obj attr = Returns (Some v))
  ∧ (resolve (py "object." ++ attr) obj = Raises VariableDoesNotExist →
     hash object resolved resolve obj attr
     = match resolve (py "object.default_index") obj with
       | Returns v => Returns (Some v)
       | Raises VariableDoesNotExist => Returns None
       | Raises e => Raises e
       end)
  ∧ (∀ e, e ≠ VariableDoesNotExist →
          resolve (py "object." ++ attr) obj = Raises e →
          hash object resolved resolve obj attr = Raises e).
Proof.
  unfold hash.
  destruct (resolve (py "object." ++ attr) obj) as [v|e] eqn:E1.
  - repeat split; try done. by intros ? [= ->].
  - destruct e; repeat split; try done; try (by intros ? ? [= <-]).
    destruct (resolve (py "object.default_index") obj) as [v|[]]; done.
Qed.

(** ** [age], further *)

(** X11: the age does not decrease when the date advances, and it is not
    negative from the day of birth on. *)
Theorem age_monotone (today bday d1 d2 : date) :
  date_le d1 d2 →
  age today bday (Some d1) ≤ age today bday (Some d2)
  ∧ (date_le bday d1 → 0 ≤ age today bday (Some d1)).
Proof.
  unfold date_le, age, int_of_bool, tuple_lt. cbn [fst snd].
  intros H12. split; [|intros Hb].
  all: repeat match goal with
         | |- context [?a =? ?b] => destruct (Z.eqb_spec a b)
         | |- context [?a <? ?b] => destruct (Z.ltb_spec a b)
         end; lia.
Qed.

Lemma age_monotone_witness :
  age (Date 2020 1 1) (Date 2006 11 9) (Some (Date 2018 11 8))
  ≤ age (Date 2020 1 1) (Date 2006 11 9) (Some (Date 2018 11 9))
  ∧ (date_le (Date 2006 11 9) (Date 2018 11 8) →
     0 ≤ age (Date 2020 1 1) (Date 2006 11 9) (Some (Date 2018 11 8))).
Proof. apply age_monotone. right. split; [done|]. right. done. Defined.

(** ** [timesince_simple], further *)

(** X12: when the second time is before the first, by however little, the
    phrase counts a negative number of days: a microsecond gives
    [-1 days]. *)
Theorem timesince_simple_earlier (now t1 t2 : datetime) :
  microseconds_between t1 t2 < 0 →
  timesince_simple id now t1 (Some t2)
  = Ok (Some (decimal (microseconds_between t1 t2 / 86400000000)
              ++ py " days"))
  ∧ microseconds_between t1 t2 / 86400000000 ≤ -1.
Proof.
  intros Hneg.
  assert (microseconds_between t1 t2 / 86400000000 ≤ -1) as Hdays.
  { assert (microseconds_between t1 t2 / 86400000000 < 0)
      by (apply Z.div_lt_upper_bound; lia).
    lia. }
  split; [|done].
  rewrite timesince_simple_buckets;
    change (days (datetime_sub t2 t1))
      with (microseconds_between t1 t2 / 86400000000); [|lia].
  rewrite decide_True by lia. done.
Qed.

Lemma timesince_simple_earlier_witness :
  timesince_simple id (Datetime 0 0 0) (Datetime 737425 0 1)
    (Some (Datetime 737425 0 0))
  = Ok (Some (decimal
                (microseconds_between (Datetime 737425 0 1)
                   (Datetime 737425 0 0) / 86400000000)
              ++ py " days"))
  ∧ microseconds_between (Datetime 737425 0 1) (Datetime 737425 0 0)
    / 86400000000 ≤ -1.
Proof. apply timesince_simple_earlier. done. Defined.

(** X13: the number that goes with weeks is 2, 3 or 4 and the number that
    goes with months is from 2 to 12; the number that goes with years is 1
    at 730 days exactly and at least 2 from 731 days on. *)
Theorem timesince_simple_counts (now t1 t2 : datetime) :
  let n := days (datetime_sub t2 t1) in
  14 ≤ n →
  ∃ phrase,
    timesince_simple id now t1 (Some t2) = Ok (Some phrase)
    ∧ (n < 30 → ∃ k, phrase = decimal k ++ py " weeks" ∧ 2 ≤ k ≤ 4)
    ∧ (30 ≤ n < 60 → phrase = py "one month")
    ∧ (60 ≤ n < 365 → ∃ k, phrase = decimal k ++ py " months" ∧ 2 ≤ k ≤ 12)
    ∧ (365 ≤ n < 730 → phrase = py "one year")
    ∧ (n = 730 → phrase = py "1 years")
    ∧ (731 ≤ n → ∃ k, phrase = decimal k ++ py " years" ∧ 2 ≤ k).
Proof.
  intros n Hn. eexists. split; [apply timesince_simple_buckets; lia|].
  fold n. clearbody n. repeat split.
  - intros ?. exists (n ÷ 7). repeat case_decide; try lia.
    split; [done|]. Z.quot_rem_to_equations. lia.
  - intros ?. repeat case_decide; try lia. done.
  - intros ?. exists (n ÷ 30). repeat case_decide; try lia.
    split; [done|]. Z.quot_rem_to_equations. lia.
  - intros ?. repeat case_decide; try lia. done.
  - intros ->. done.
  - intros ?. exists ((4 * n) ÷ 1461). repeat case_decide; try lia.
    split; [done|]. Z.quot_rem_to_equations. lia.
Qed.

Lemma timesince_simple_counts_witness :
  ∃ phrase,
    timesince_simple id (Datetime 0 0 0) (Datetime 737425 0 0)
      (Some (Datetime 738155 0 0)) = Ok (Some phrase)
    ∧ phrase = py "1 years".
Proof.
  destruct (timesince_simple_counts (Datetime 0 0 0) (Datetime 737425 0 0)
              (Datetime 738155 0 0)) as (phrase & H1 & _ & _ & _ & _ & H2 & _).
  - done.
  - exists phrase. split; [exact H1|]. by apply H2.
Defined.

(** ** [truncat] and the scrubber, further *)

Section SubFacts.
Implicit Types (r p q : regex) (s t repl : str).

Lemma re_search_false r s t :
  re_search r s = false → t `suffix_of` s → re_match r t = None.
Proof.
  induction s as [|c s IH]; cbn [re_search].
  - destruct (re_match r []) eqn:E; [done|].
    by intros _ ->%suffix_nil_inv.
  - destruct (re_match r (c :: s)) eqn:E; [done|].
    intros Hs [[|x k] Hk]; simplify_eq/=; [done|].
    apply IH; [done|]. by exists k.
Qed.

Lemma re_match_append_none p q t :
  re_match p t = None → re_match (re_append p q) t = None.
Proof.
  induction p as [|c| |f|a IHa b IHb|a IHa b IHb|a IHa|a IHa|a IHa lo hi];
    try apply re_match_seq_none.
  unfold re_match in *. cbn [re_append cands].
  intros [Ha Hb]%head_None%app_eq_nil. rewrite Ha. by apply IHb, head_None.
Qed.

(** A pattern that matches nowhere leaves the string as it is. *)
Lemma re_sub_no_match r repl s :
  re_search r s = false → re_sub r repl s = s.
Proof.
  intros Hsearch. unfold re_sub.
  rewrite <-(app_nil_r s) at 1. rewrite sub_from_before.
  - cbn [sub_from].
    rewrite (re_search_false r s []) by (done || apply suffix_nil).
    apply app_nil_r.
  - intros p1 p2 -> _. rewrite app_nil_r.
    apply (re_search_false r (p1 ++ p2)); [done|by apply suffix_app_r].
Qed.

(** Substituting the empty string only deletes. *)
Lemma sub_from_sublist r (skip : nat) s :
  sub_from r [] skip s `sublist_of` s.
Proof.
  revert skip. induction s as [|c s IH]; intros skip.
  - destruct skip; simpl; [by destruct (re_match r [])|done].
  - destruct skip as [|k]; cbn [sub_from].
    + destruct (re_match r (c :: s)) as [rest|].
      * destruct (length (c :: s) - length rest)%nat; cbn [app].
        -- destruct (re_match_advance r (c :: s)) as [rest'|].
           ++ by apply sublist_cons.
           ++ by apply sublist_skip.
        -- by apply sublist_cons.
      * by apply sublist_skip.
    + by apply sublist_cons.
Qed.

End SubFacts.

(** X14: when the pattern matches at no position of the string, the end
    included, [truncat] returns the string as it is. *)
Theorem truncat_no_match (s : str) (pattern : regex) :
  re_search pattern s = false → truncat s pattern = s.
Proof.
  intros Hsearch. unfold truncat, re_sub.
  rewrite <-(app_nil_r s) at 1. rewrite sub_from_before.
  - cbn [sub_from]. rewrite re_match_append_none.
    + apply app_nil_r.
    + apply (re_search_false pattern s); [done|apply suffix_nil].
  - intros p1 p2 -> _. rewrite app_nil_r. apply re_match_append_none.
    apply (re_search_false pattern (p1 ++ p2)); [done|by apply suffix_app_r].
Qed.

Lemma truncat_no_match_witness :
  truncat (py "3 days") (Chr ",") = py "3 days".
Proof. apply truncat_no_match. reflexivity. Defined.

(** X16: [truncat] and the scrubber of [sanitize] only delete: what they
    return is the input with some characters left out, in order. *)
Theorem truncat_and_scrub_only_delete (s : str) (pattern : regex) :
  truncat s pattern `sublist_of` s
  ∧ re_sub js_regex [] s `sublist_of` s.
Proof. split; apply sub_from_sublist. Qed.

(** X17: an attribute value without the letter [j] goes through the
    scrubber unchanged. *)
Theorem js_scrub_without_j (val : str) :
  "j"%char ∉ val → re_sub js_regex [] val = val.
Proof.
  intros Hj. unfold re_sub. rewrite <-(app_nil_r val) at 1.
  rewrite sub_from_before by by apply js_regex_needs_j.
  cbn [sub_from]. replace (re_match js_regex []) with (@None str) by done.
  apply app_nil_r.
Qed.

Lemma js_scrub_without_j_witness :
  re_sub js_regex [] (py "http://example.org/a?b=c")
  = py "http://example.org/a?b=c".
Proof.
  apply js_scrub_without_j. apply (bool_decide_unpack _). by vm_compute.
Defined.

(** ** The policy, further *)

Section PolicyFacts.

Lemma dict_lookup_app (l1 l2 : list (str * list str)) (k : str) :
  dict (l1 ++ l2) !! k
  = match dict l2 !! k with
    | Some v => Some v
    | None => dict l1 !! k
    end.
Proof.
  induction l2 as [|[k2 v2] l2 IH] using rev_ind.
  - by rewrite app_nil_r.
  - rewrite app_assoc, !dict_lookup_snoc. case_decide; [done|apply IH].
Qed.

Lemma split_go_no_space (s : str) :
  Forall (λ c, isspace c = false) (split_go s).1
  ∧ Forall (Forall (λ c, isspace c = false)) (split_go s).2.
Proof.
  induction s as [|c s [IHw IHws]]; [by split|]. cbn [split_go].
  destruct (split_go s) as [w ws]. cbn [fst snd] in *.
  destruct (isspace c) eqn:E; cbn [fst snd].
  - split; [done|]. destruct w; [done|by constructor].
  - split; [by constructor|done].
Qed.

Lemma split_no_space (s : str) :
  Forall (Forall (λ c, isspace c = false)) (split s).
Proof.
  unfold split. destruct (split_go_no_space s) as [Hw Hws].
  destruct (split_go s) as [w ws]. cbn [fst snd] in *.
  destruct w; [done|by constructor].
Qed.

Lemma split_char_parts (sep : ascii) (s : str) :
  Forall (λ part, (sep ∉ part) ∧ (∀ c, c ∈ part → c ∈ s)) (split_char sep s).
Proof.
  induction s as [|c s IH]; cbn [split_char].
  - constructor; [|done]. split; [apply not_elem_of_nil|done].
  - case_decide.
    + constructor.
      * split; [apply not_elem_of_nil|by intros ? ?%elem_of_nil].
      * eapply Forall_impl; [exact IH|]. intros part [H1 H2].
        split; [done|]. intros x Hx. right. by apply H2.
    + destruct (split_char_nonempty sep s) as (w & ws & E).
      rewrite E in IH |- *.
      apply Forall_cons in IH as [[Hw1 Hw2] IH]. constructor.
      * split; [apply not_elem_of_cons; split; [congruence|done]|].
        intros x [->|Hx]%elem_of_cons; [by left|right; by apply Hw2].
      * eapply Forall_impl; [exact IH|]. intros part [H1 H2].
        split; [done|]. intros x Hx. right. by apply H2.
Qed.

End PolicyFacts.

(** X18: when a tag is named by several tokens of the policy string, the
    last of them gives its allowed attributes. *)
Theorem policy_last_token_wins (allowed_tags : str)
  (before after : list str) (tag name : str) (names : list str) :
  split allowed_tags = before ++ tag :: after →
  split_char ":" tag = name :: names →
  (∀ t, t ∈ after → head (split_char ":" t) ≠ Some name) →
  ∃ policy,
    parse_allowed_tags allowed_tags = Ok policy
    ∧ policy !! name = Some names.
Proof.
  intros Hsplit Htag Hafter. exists (policy_of allowed_tags).
  split; [apply parse_allowed_tags_total|].
  unfold policy_of. rewrite Hsplit, !fmap_app, !fmap_cons, Htag.
  rewrite dict_lookup_app.
  change (?x :: ?l) with ([x] ++ l) at 1. rewrite dict_lookup_app.
  replace (dict _ !! name) with (@None (list str)).
  - change [(default [] (head (name :: names)), drop 1 (name :: names))]
      with ([] ++ [(name, names)]).
    rewrite dict_lookup_snoc. by rewrite decide_True.
  - symmetry. apply dict_lookup_None. rewrite <-!list_fmap_compose.
    intros (t & Hname & Ht)%list_elem_of_fmap. apply (Hafter t Ht).
    simpl in Hname. destruct (split_char_nonempty ":" t) as (w & ws & E).
    rewrite E in Hname |- *. simpl in *. by subst.
Qed.

Lemma policy_last_token_wins_witness :
  ∃ policy,
    parse_allowed_tags (py "a:href b a") = Ok policy
    ∧ policy !! py "a" = Some [].
Proof.
  apply (policy_last_token_wins (py "a:href b a") [py "a:href"; py "b"] []
           (py "a") (py "a") []).
  - reflexivity.
  - reflexivity.
  - by intros t ?%elem_of_nil.
Defined.

(** X19: no key of the policy and no attribute name of its allowed sets
    holds a colon or white space. *)
Theorem policy_names_are_plain (allowed_tags : str)
  (policy : gmap str (list str)) (name : str) (names : list str) :
  parse_allowed_tags allowed_tags = Ok policy →
  policy !! name = Some names →
  Forall (λ part, (":"%char ∉ part) ∧ Forall (λ c, isspace c = false) part)
    (name :: names).
Proof.
  rewrite parse_allowed_tags_total. intros [= <-] Hname.
  apply policy_of_lookup_Some in Hname as (tag & Htag & Hparts).
  pose proof (split_no_space allowed_tags) as Hspace.
  rewrite Forall_forall in Hspace. specialize (Hspace tag Htag).
  rewrite Forall_forall in Hspace.
  rewrite <-Hparts. eapply Forall_impl; [apply split_char_parts|].
  intros part [Hcolon Hchars]. split; [done|].
  apply Forall_forall. intros c Hc. by apply Hspace, Hchars.
Qed.

Lemma policy_names_are_plain_witness :
  Forall (λ part, (":"%char ∉ part) ∧ Forall (λ c, isspace c = false) part)
    [py "img"; py "src"; py "alt"].
Proof.
  apply (policy_names_are_plain (py "a:href  img:src:alt")
           (policy_of (py "a:href  img:src:alt")) (py "img")
           [py "src"; py "alt"]).
  - apply parse_allowed_tags_total.
  - by vm_compute.
Defined.

(** ** [sanitize], further *)

Section SanitizeMore.
Context (ugettext : str → str) (linenumbers : str → bool → str)
  (BeautifulSoup : str → parsed)
  (tag_markup : str → list (str * attr_value) → str → str).

(** X20: what [sanitize] does with a fragment that parses. It raises
    [ValueError] when a tag that is a key of the policy has an attribute
    whose name is not of two characters; if not, it raises [AttributeError]
    when some tag is a key of the policy; if not, it returns the strings of
    the fragment, all of them and in their order, as the printer escapes
    them, also those inside a tag that the policy does not allow, without
    the comments and without any markup of a tag. *)
Theorem sanitize_outcome (value allowed_tags : str)
    (soup : list (node (list (str * attr_value)))) :
  BeautifulSoup value = Soup soup →
  sanitize ugettext linenumbers BeautifulSoup tag_markup value allowed_tags
  = if existsb (unpack_fails (policy_of allowed_tags)) soup
    then Raise ValueError
    else if existsb (names_key (policy_of allowed_tags)) soup
    then Raise AttributeError
    else Ok (soup ≫= text_of false).
Proof. apply sanitize_cases. Qed.

(** X22: with a policy string that names no tag, [sanitize] returns the
    strings of the fragment, and nothing else. *)
Theorem sanitize_empty_policy (value allowed_tags : str)
    (soup : list (node (list (str * attr_value)))) :
  BeautifulSoup value = Soup soup →
  split allowed_tags = [] →
  sanitize ugettext linenumbers BeautifulSoup tag_markup value allowed_tags
  = Ok (soup ≫= text_of false).
Proof.
  intros Hsoup Hsplit. apply sanitize_returns; [done|].
  apply not_true_is_false. intros (n & _ & Hn)%existsb_exists.
  rewrite names_key_empty in Hn; [done|].
  intros name. unfold policy_of. by rewrite Hsplit.
Qed.

(** X23: the default policy of [sanitize_simple_html] has fifteen keys, with
    [href] allowed on [a], [src] on [img] and no attribute on the others;
    [sanitize_simple_html] is [sanitize] with that policy. *)
Theorem sanitize_simple_html_default (value : str) :
  policy_of sanitize_simple_html_tags
  = dict [(py "a", [py "href"]); (py "b", []); (py "u", []); (py "p", []);
          (py "i", []); (py "h1", []); (py "h2", []); (py "h3", []);
          (py "hr", []); (py "img", [py "src"]); (py "table", []);
          (py "tr", []); (py "td", []); (py "th", []); (py "code", [])]
  ∧ parse_allowed_tags sanitize_simple_html_tags
    = Ok (policy_of sanitize_simple_html_tags)
  ∧ sanitize_simple_html ugettext linenumbers BeautifulSoup tag_markup value
    = sanitize ugettext linenumbers BeautifulSoup tag_markup value
        (py "a:href b u p i h1 h2 h3 hr img:src table tr td th code").
Proof.
  split; [|split; [apply parse_allowed_tags_total|done]].
  unfold policy_of. f_equal.
Qed.

End SanitizeMore.

Lemma sanitize_outcome_witness :
  sanitize id (λ s _, s)
    (λ _, Soup [Tag (py "script") [] [NavigableString (py "alert(1)")];
                Comment (py "c"); NavigableString (py "t")])
    (λ _ _ inner, inner) (py "<script>alert(1)</script><!--c-->t")
    (py "a:href b")
  = Ok (py "alert(1)t").
Proof.
  exact (sanitize_outcome id (λ s _, s)
    (λ _, Soup [Tag (py "script") [] [NavigableString (py "alert(1)")];
                Comment (py "c"); NavigableString (py "t")])
    (λ _ _ inner, inner) (py "<script>alert(1)</script><!--c-->t")
    (py "a:href b") _ eq_refl).
Defined.

Lemma sanitize_empty_policy_witness :
  sanitize id (λ s _, s)
    (λ _, Soup [Tag (py "b") [] [NavigableString (py "t")]])
    (λ _ _ inner, inner) (py "<b>t</b>") (py "  ")
  = Ok (py "t").
Proof.
  exact (sanitize_empty_policy id (λ s _, s)
    (λ _, Soup [Tag (py "b") [] [NavigableString (py "t")]])
    (λ _ _ inner, inner) (py "<b>t</b>") (py "  ") _ eq_refl eq_refl).
Defined.

(** ** [listsort] *)

Lemma listsort_sorted (lst : option (list Z)) :
  Sorted Z.le (listsort lst) ∧ listsort lst ≡ₚ default [] lst.
Proof.
  destruct lst as [[|x l]|]; simpl; try (split; [constructor|done]).
  split; [apply (Sorted_merge_sort Z.le)|apply merge_sort_Permutation].
Qed.

(** X24: [listsort] returns its input in ascending order: the result is
    sorted and has the elements of the input, each as often as the input
    has it; it is the only list that is both. [None] and the empty list
    give the empty list. *)
Theorem listsort_sorted_permutation (lst : option (list Z)) :
  Sorted Z.le (listsort lst)
  ∧ listsort lst ≡ₚ default [] lst
  ∧ (∀ l, Sorted Z.le l → l ≡ₚ default [] lst → l = listsort lst)
  ∧ listsort None = [] ∧ listsort (Some []) = [].
Proof.
  destruct (listsort_sorted lst) as [Hsorted Hperm].
  split; [done|]. split; [done|]. split; [|done].
  intros l Hl Hp. apply (Sorted_unique Z.le); [done|done|].
  by rewrite Hp, Hperm.
Qed.

(** X25: sorting a sorted list changes nothing: [listsort] of its own
    result is that result. *)
Theorem listsort_idempotent (lst : option (list Z)) :
  listsort (Some (listsort lst)) = listsort lst.
Proof.
  destruct (listsort_sorted lst) as [Hsorted _].
  destruct (listsort_sorted (Some (listsort lst))) as [Hsorted' Hperm'].
  by apply (Sorted_unique Z.le).
Qed.
